(** * A kanban board editor (src/src/App.tsx): board store and persistence

    A shallow embedding of the state layer of the React component [App]:
    the board tree (board, lists, cards), the updater functions handed to
    [setBoard], the event handlers that guard them, and the two
    [useEffect] hooks that load and save the board through
    [localStorage].

    JavaScript strings are sequences of UTF-16 code units; a [Date] is its
    time value (milliseconds since the epoch, or NaN). The readings of the
    clock ([Date.now()], [new Date()]) are explicit arguments. The first
    part of the file holds the embedding, the second its properties. *)

From Stdlib Require Import ZArith NArith List Bool Lia String Ascii.
From Stdlib Require Import DecimalZ DecimalPos DecimalFacts.
Import ListNotations.

(** ** JavaScript strings *)

Module JsString.

Definition t : Type := list N.

(** A literal made of ASCII characters. *)
Definition lit (s : string) : t :=
  map N_of_ascii (list_ascii_of_string s).

Fixpoint eqb (a b : t) : bool :=
  match a, b with
  | [], [] => true
  | x :: a', y :: b' => N.eqb x y && eqb a' b'
  | _, _ => false
  end.

(** [WhiteSpace] and [LineTerminator] of ECMAScript, which
    [String.prototype.trim] strips. All of them lie in the basic plane, so
    the test is on one code unit. *)
Definition is_space (c : N) : bool :=
  ((9 <=? c) && (c <=? 13) || (c =? 32) || (c =? 160) || (c =? 5760)
   || (8192 <=? c) && (c <=? 8202) || (c =? 8232) || (c =? 8233)
   || (c =? 8239) || (c =? 8287) || (c =? 12288) || (c =? 65279))%N.

Fixpoint trimStart (s : t) : t :=
  match s with
  | c :: s' => if is_space c then trimStart s' else s
  | [] => []
  end.

Definition trimEnd (s : t) : t := rev (trimStart (rev s)).

(** [s.trim()] *)
Definition trim (s : t) : t := trimEnd (trimStart s).

(** Truthiness of a string: only the empty string is falsy. *)
Definition truthy (s : t) : bool :=
  match s with [] => false | _ :: _ => true end.

(** Decimal digits of a [Decimal.uint], most significant first. *)
Fixpoint digits (d : Decimal.uint) : t :=
  match d with
  | Decimal.Nil => []
  | Decimal.D0 d => 48%N :: digits d
  | Decimal.D1 d => 49%N :: digits d
  | Decimal.D2 d => 50%N :: digits d
  | Decimal.D3 d => 51%N :: digits d
  | Decimal.D4 d => 52%N :: digits d
  | Decimal.D5 d => 53%N :: digits d
  | Decimal.D6 d => 54%N :: digits d
  | Decimal.D7 d => 55%N :: digits d
  | Decimal.D8 d => 56%N :: digits d
  | Decimal.D9 d => 57%N :: digits d
  end.

(** [n.toString()] for an integral Number of magnitude below 1e21 (a clock
    reading is far below): plain decimal notation, a minus sign for
    negatives. *)
Definition ofInteger (n : Z) : t :=
  match Z.to_int n with
  | Decimal.Pos d => digits d
  | Decimal.Neg d => 45%N :: digits d
  end.

End JsString.

Definition jsstring : Type := JsString.t.
Definition js (s : string) : jsstring := JsString.lit s.

(** [a === b] on strings. *)
Definition streq (a b : jsstring) : bool := JsString.eqb a b.

(** ** Data model (the three interfaces) *)

(** The time value of a [Date]: [None] is NaN (an invalid date), [Some t]
    is [t] milliseconds since 1970-01-01T00:00:00Z. *)
Definition Date : Type := option Z.

Record Card : Type := mkCard {
  card_id : jsstring;
  card_title : jsstring;
  card_description : option jsstring;
  card_createdAt : Date
}.

Record List : Type := mkList {
  list_id : jsstring;
  list_title : jsstring;
  list_cards : list Card
}.

Record Board : Type := mkBoard {
  board_id : jsstring;
  board_title : jsstring;
  board_lists : list List
}.

(** [{ ...prev, lists }], [{ ...list, cards }], [{ ...list, title }] *)
Definition with_lists (prev : Board) (lists : list List) : Board :=
  {| board_id := board_id prev; board_title := board_title prev;
     board_lists := lists |}.

Definition with_cards (l : List) (cards : list Card) : List :=
  {| list_id := list_id l; list_title := list_title l; list_cards := cards |}.

Definition with_title (l : List) (title : jsstring) : List :=
  {| list_id := list_id l; list_title := title; list_cards := list_cards l |}.

(** The initial state of [useState<Board>]. *)
Definition initialBoard : Board :=
  {| board_id := js "1";
     board_title := js "Mi Tablero de Trabajo";
     board_lists :=
       [ {| list_id := js "1"; list_title := js "Por Hacer"; list_cards := [] |};
         {| list_id := js "2"; list_title := js "En Progreso"; list_cards := [] |};
         {| list_id := js "3"; list_title := js "Completado"; list_cards := [] |} ] |}.

(** ** The board store: the updaters given to [setBoard]

    Every store function of [App] calls [setBoard (prev => ...)]; it is
    modelled by the updater, a function from the previous board to the next
    one. [addCard] reads the clock twice: [Date.now()] for the identifier
    and [new Date()] for the creation date. *)

Definition addCard (now created : Z) (listId title : jsstring)
    (prev : Board) : Board :=
  let newCard :=
    {| card_id := JsString.ofInteger now;
       card_title := title;
       card_description := None;
       card_createdAt := Some created |} in
  with_lists prev
    (map (fun list =>
            if streq (list_id list) listId
            then with_cards list (list_cards list ++ [newCard])
            else list)
         (board_lists prev)).

Definition deleteCard (listId cardId : jsstring) (prev : Board) : Board :=
  with_lists prev
    (map (fun list =>
            if streq (list_id list) listId
            then with_cards list
                   (filter (fun card => negb (streq (card_id card) cardId))
                      (list_cards list))
            else list)
         (board_lists prev)).

Definition moveCard (cardId sourceListId targetListId : jsstring)
    (prev : Board) : Board :=
  if streq sourceListId targetListId then prev
  else
    let sourceList :=
      find (fun list => streq (list_id list) sourceListId) (board_lists prev) in
    let card :=
      match sourceList with
      | Some l => find (fun c => streq (card_id c) cardId) (list_cards l)
      | None => None
      end in
    match card with
    | None => prev
    | Some card =>
        with_lists prev
          (map (fun list =>
                  if streq (list_id list) sourceListId
                  then with_cards list
                         (filter (fun c => negb (streq (card_id c) cardId))
                            (list_cards list))
                  else if streq (list_id list) targetListId
                  then with_cards list (list_cards list ++ [card])
                  else list)
             (board_lists prev))
    end.

Definition updateListTitle (listId newTitle : jsstring) (prev : Board) : Board :=
  with_lists prev
    (map (fun list =>
            if streq (list_id list) listId then with_title list newTitle
            else list)
         (board_lists prev)).

Definition deleteList (listId : jsstring) (prev : Board) : Board :=
  with_lists prev
    (filter (fun list => negb (streq (list_id list) listId)) (board_lists prev)).

(** ** Component state and event handlers *)

(** The state of [App]. *)
Record AppState : Type := mkApp {
  board : Board;
  draggedCard : option (Card * jsstring);
  isAddingList : bool;
  newListTitle : jsstring;
  editingListId : option jsstring;
  editingListTitle : jsstring
}.

(** The local state of one [ListComponent]. *)
Record ListState : Type := mkListState {
  isAddingCard : bool;
  newCardTitle : jsstring;
  showListMenu : bool
}.

Definition setBoard (f : Board -> Board) (st : AppState) : AppState :=
  {| board := f (board st);
     draggedCard := draggedCard st;
     isAddingList := isAddingList st;
     newListTitle := newListTitle st;
     editingListId := editingListId st;
     editingListTitle := editingListTitle st |}.

Definition initialApp : AppState :=
  {| board := initialBoard;
     draggedCard := None;
     isAddingList := false;
     newListTitle := [];
     editingListId := None;
     editingListTitle := [] |}.

(** [addList] of [App]: it takes the title from the state, refuses one
    that trims to the empty string, and otherwise appends a list whose
    identifier is the clock reading. *)
Definition addList (now : Z) (st : AppState) : AppState :=
  if negb (JsString.truthy (JsString.trim (newListTitle st))) then st
  else
    let newList :=
      {| list_id := JsString.ofInteger now;
         list_title := newListTitle st;
         list_cards := [] |} in
    {| board := with_lists (board st) (board_lists (board st) ++ [newList]);
       draggedCard := draggedCard st;
       isAddingList := false;
       newListTitle := [];
       editingListId := editingListId st;
       editingListTitle := editingListTitle st |}.

Definition handleDragStart (card : Card) (listId : jsstring)
    (st : AppState) : AppState :=
  {| board := board st;
     draggedCard := Some (card, listId);
     isAddingList := isAddingList st;
     newListTitle := newListTitle st;
     editingListId := editingListId st;
     editingListTitle := editingListTitle st |}.

Definition handleDrop (targetListId : jsstring) (st : AppState) : AppState :=
  match draggedCard st with
  | Some (card, sourceListId) =>
      {| board := moveCard (card_id card) sourceListId targetListId (board st);
         draggedCard := None;
         isAddingList := isAddingList st;
         newListTitle := newListTitle st;
         editingListId := editingListId st;
         editingListTitle := editingListTitle st |}
  | None => st
  end.

(** [handleAddCard] of the [ListComponent] that displays [list]. *)
Definition handleAddCard (now created : Z) (list : List)
    (st : AppState * ListState) : AppState * ListState :=
  let (app, ls) := st in
  if negb (JsString.truthy (JsString.trim (newCardTitle ls))) then st
  else
    (setBoard (addCard now created (list_id list) (newCardTitle ls)) app,
     {| isAddingCard := false; newCardTitle := [];
        showListMenu := showListMenu ls |}).

(** [saveTitle] of the [ListComponent] that displays [list]. *)
Definition saveTitle (list : List) (app : AppState) : AppState :=
  let app' :=
    if JsString.truthy (JsString.trim (editingListTitle app))
    then setBoard (updateListTitle (list_id list) (editingListTitle app)) app
    else app in
  {| board := board app';
     draggedCard := draggedCard app';
     isAddingList := isAddingList app';
     newListTitle := newListTitle app';
     editingListId := None;
     editingListTitle := editingListTitle app' |}.

(** The store operations as commands, and the boards they reach. The
    title of [OpAddList] is what was typed into the new-list input. *)
Inductive StoreOp : Type :=
| OpAddCard (now created : Z) (listId title : jsstring)
| OpDeleteCard (listId cardId : jsstring)
| OpMoveCard (cardId sourceListId targetListId : jsstring)
| OpAddList (now : Z) (title : jsstring)
| OpUpdateListTitle (listId newTitle : jsstring)
| OpDeleteList (listId : jsstring).

Definition typeListTitle (title : jsstring) (b : Board) : AppState :=
  {| board := b; draggedCard := None; isAddingList := true;
     newListTitle := title; editingListId := None; editingListTitle := [] |}.

Definition applyOp (b : Board) (o : StoreOp) : Board :=
  match o with
  | OpAddCard now created listId title => addCard now created listId title b
  | OpDeleteCard listId cardId => deleteCard listId cardId b
  | OpMoveCard cardId src tgt => moveCard cardId src tgt b
  | OpAddList now title => board (addList now (typeListTitle title b))
  | OpUpdateListTitle listId newTitle => updateListTitle listId newTitle b
  | OpDeleteList listId => deleteList listId b
  end.

Definition runOps (ops : list StoreOp) (b : Board) : Board :=
  fold_left applyOp ops b.

(** Every card identifier of a board, list by list. *)
Definition cardIds (b : Board) : list jsstring :=
  flat_map (fun l => map card_id (list_cards l)) (board_lists b).

Definition listIds (b : Board) : list jsstring :=
  map list_id (board_lists b).

(** ** Values read from storage, and [JSON.parse]

    [Value] is what the load effect handles: the tree built by
    [JSON.parse], in which the effect replaces creation dates by [Date]
    objects. A number is kept as its literal (the Number it denotes is not
    needed here). An object is the list of its own properties in creation
    order (the code reads properties by name only, so that the place
    ECMAScript gives to integer-like names plays no part). An array
    carries, besides its items, the named properties
    assigned to it (none after [JSON.parse]). *)

#[warnings="-register-all"]
Inductive Value : Type :=
| VNull
| VBool (b : bool)
| VNumber (literal : jsstring)
| VString (s : jsstring)
| VDate (t : Date)
| VArray (items : list Value) (own : list (jsstring * Value))
| VObject (props : list (jsstring * Value)).

Inductive Error : Type := SyntaxError | TypeError.

(** The outcome of running a piece of code: a result or an exception. *)
Inductive Outcome (A : Type) : Type :=
| Returns (a : A)
| Throws (e : Error).

Arguments Returns {A} a.
Arguments Throws {A} e.

Definition bind {A B : Type} (m : Outcome A) (k : A -> Outcome B) : Outcome B :=
  match m with
  | Returns a => k a
  | Throws e => Throws e
  end.

Notation "x <- m ;; k" := (bind m (fun x => k))
  (at level 61, m at next level, right associativity).

(** [array.forEach(f)] where [f] replaces the item it visits: the items
    are visited in order and the first exception ends the loop. *)
Fixpoint forEach {A : Type} (f : A -> Outcome A) (items : list A)
    : Outcome (list A) :=
  match items with
  | [] => Returns []
  | x :: rest =>
      y <- f x ;;
      ys <- forEach f rest ;;
      Returns (y :: ys)
  end.

Module Json.

(** [CreateDataProperty]: a key that exists keeps its place and takes the
    new value, a new key goes to the end. *)
Fixpoint setProp (props : list (jsstring * Value)) (key : jsstring) (v : Value)
    : list (jsstring * Value) :=
  match props with
  | [] => [(key, v)]
  | (k, w) :: rest =>
      if streq k key then (k, v) :: rest else (k, w) :: setProp rest key v
  end.

Fixpoint getProp (props : list (jsstring * Value)) (key : jsstring)
    : option Value :=
  match props with
  | [] => None
  | (k, w) :: rest => if streq k key then Some w else getProp rest key
  end.

Definition isWs (c : N) : bool :=
  ((c =? 9) || (c =? 10) || (c =? 13) || (c =? 32))%N.

Definition isDigit (c : N) : bool := ((48 <=? c) && (c <=? 57))%N.

Fixpoint skipWs (s : jsstring) : jsstring :=
  match s with
  | c :: r => if isWs c then skipWs r else s
  | [] => []
  end.

(** The value of a hexadecimal digit. *)
Definition hexVal (c : N) : option N :=
  if ((48 <=? c) && (c <=? 57))%N then Some (c - 48)%N
  else if ((97 <=? c) && (c <=? 102))%N then Some (c - 87)%N
  else if ((65 <=? c) && (c <=? 70))%N then Some (c - 55)%N
  else None.

Definition hex4 (a b c d : N) : option N :=
  match hexVal a, hexVal b, hexVal c, hexVal d with
  | Some x, Some y, Some z, Some w => Some (4096 * x + 256 * y + 16 * z + w)%N
  | _, _, _, _ => None
  end.

(** The characters of a string literal after its opening quote, up to the
    closing quote: the decoded string and what follows the literal. *)
Fixpoint stringBody (s : jsstring) : option (jsstring * jsstring) :=
  match s with
  | [] => None
  | c :: r =>
      if (c =? 34)%N then Some ([], r)
      else if (c =? 92)%N then
        match r with
        | [] => None
        | e :: r1 =>
            if (e =? 117)%N then
              match r1 with
              | a :: b :: c' :: d :: r2 =>
                  match hex4 a b c' d with
                  | Some u =>
                      match stringBody r2 with
                      | Some (str, rest) => Some (u :: str, rest)
                      | None => None
                      end
                  | None => None
                  end
              | _ => None
              end
            else
              let decoded :=
                if (e =? 34)%N then Some 34%N
                else if (e =? 92)%N then Some 92%N
                else if (e =? 47)%N then Some 47%N
                else if (e =? 98)%N then Some 8%N
                else if (e =? 102)%N then Some 12%N
                else if (e =? 110)%N then Some 10%N
                else if (e =? 114)%N then Some 13%N
                else if (e =? 116)%N then Some 9%N
                else None in
              match decoded with
              | Some u =>
                  match stringBody r1 with
                  | Some (str, rest) => Some (u :: str, rest)
                  | None => None
                  end
              | None => None
              end
        end
      else if (c <? 32)%N then None
      else
        match stringBody r with
        | Some (str, rest) => Some (c :: str, rest)
        | None => None
        end
  end.

(** The longest prefix of digits, and the rest. *)
Fixpoint spanDigits (s : jsstring) : jsstring * jsstring :=
  match s with
  | c :: r =>
      if isDigit c then let (ds, rest) := spanDigits r in (c :: ds, rest)
      else ([], s)
  | [] => ([], [])
  end.

(** An optional minus sign. *)
Definition signPart (s : jsstring) : jsstring * jsstring :=
  match s with
  | c :: r => if (c =? 45)%N then ([45%N], r) else ([], s)
  | [] => ([], s)
  end.

(** An integer part is a single zero or starts with a digit from 1 to 9. *)
Definition intOk (int : jsstring) : bool :=
  match int with
  | [] => false
  | d :: more => negb (d =? 48)%N || match more with [] => true | _ => false end
  end.

(** An optional fraction: a dot, then one digit at least. *)
Definition fraction (s : jsstring) : option (jsstring * jsstring) :=
  match s with
  | c :: r =>
      if (c =? 46)%N then
        let (ds, rest) := spanDigits r in
        match ds with
        | [] => None
        | _ :: _ => Some (46%N :: ds, rest)
        end
      else Some ([], s)
  | [] => Some ([], s)
  end.

(** An optional exponent: e or E, an optional sign, then one digit at
    least. *)
Definition exponent (s : jsstring) : option (jsstring * jsstring) :=
  match s with
  | c :: r =>
      if ((c =? 101) || (c =? 69))%N then
        let (esign, r1) :=
          match r with
          | g :: r' =>
              if ((g =? 43) || (g =? 45))%N then ([g], r') else ([], r)
          | [] => ([], r)
          end in
        let (ds, rest) := spanDigits r1 in
        match ds with
        | [] => None
        | _ :: _ => Some (c :: esign ++ ds, rest)
        end
      else Some ([], s)
  | [] => Some ([], s)
  end.

(** A number literal: sign, integer part, fraction, exponent. *)
Definition numberLiteral (s : jsstring) : option (jsstring * jsstring) :=
  let (sign, s1) := signPart s in
  let (int, s2) := spanDigits s1 in
  if negb (intOk int) then None
  else
    match fraction s2 with
    | None => None
    | Some (frac, s3) =>
        match exponent s3 with
        | None => None
        | Some (ex, s4) => Some (sign ++ int ++ frac ++ ex, s4)
        end
    end.

(** Does [s] start with the word [w]? Then what follows it. *)
Fixpoint stripPrefix (w s : jsstring) : option jsstring :=
  match w, s with
  | [], _ => Some s
  | a :: w', c :: s' => if (a =? c)%N then stripPrefix w' s' else None
  | _ :: _, [] => None
  end.

Section Containers.

(** The parser of one value, which the two loops call on each item. *)
Variable value : jsstring -> option (Value * jsstring).

(** The items of an array after the opening bracket (the array is not
    empty). The counter bounds the number of items: each takes a character
    at least. *)
Fixpoint elements (n : nat) (s : jsstring) (acc : list Value)
    : option (Value * jsstring) :=
  match n with
  | O => None
  | S n' =>
      match value s with
      | None => None
      | Some (v, r) =>
          match skipWs r with
          | c :: r' =>
              if (c =? 44)%N then elements n' r' (acc ++ [v])
              else if (c =? 93)%N then Some (VArray (acc ++ [v]) [], r')
              else None
          | [] => None
          end
      end
  end.

(** The members of an object after the opening brace (the object is not
    empty). *)
Fixpoint members (n : nat) (s : jsstring) (acc : list (jsstring * Value))
    : option (Value * jsstring) :=
  match n with
  | O => None
  | S n' =>
      match skipWs s with
      | q :: r0 =>
          if (q =? 34)%N then
            match stringBody r0 with
            | None => None
            | Some (key, r1) =>
                match skipWs r1 with
                | c :: r2 =>
                    if (c =? 58)%N then
                      match value r2 with
                      | None => None
                      | Some (v, r3) =>
                          match skipWs r3 with
                          | d :: r4 =>
                              if (d =? 44)%N
                              then members n' r4 (setProp acc key v)
                              else if (d =? 125)%N
                              then Some (VObject (setProp acc key v), r4)
                              else None
                          | [] => None
                          end
                      end
                    else None
                | [] => None
                end
            end
          else None
      | [] => None
      end
  end.

(** What follows an opening bracket: the closing one, or the items. *)
Definition arrayBody (r : jsstring) : option (Value * jsstring) :=
  match skipWs r with
  | d :: r' =>
      if (d =? 93)%N then Some (VArray [] [], r')
      else elements (Datatypes.length r) r []
  | [] => None
  end.

(** What follows an opening brace: the closing one, or the members. *)
Definition objectBody (r : jsstring) : option (Value * jsstring) :=
  match skipWs r with
  | d :: r' =>
      if (d =? 125)%N then Some (VObject [], r')
      else members (Datatypes.length r) r []
  | [] => None
  end.

End Containers.

(** One JSON value, leading white space skipped. [depth] bounds the
    nesting: a nested value starts one character further at least, so the
    length of the text is a bound that is never reached. *)
Fixpoint value (depth : nat) (s : jsstring) : option (Value * jsstring) :=
  match depth with
  | O => None
  | S depth' =>
      match skipWs s with
      | [] => None
      | c :: r =>
          if (c =? 123)%N then objectBody (value depth') r
          else if (c =? 91)%N then arrayBody (value depth') r
          else if (c =? 34)%N then
            match stringBody r with
            | Some (str, rest) => Some (VString str, rest)
            | None => None
            end
          else if (c =? 116)%N then
            match stripPrefix [114; 117; 101]%N r with
            | Some rest => Some (VBool true, rest)
            | None => None
            end
          else if (c =? 102)%N then
            match stripPrefix [97; 108; 115; 101]%N r with
            | Some rest => Some (VBool false, rest)
            | None => None
            end
          else if (c =? 110)%N then
            match stripPrefix [117; 108; 108]%N r with
            | Some rest => Some (VNull, rest)
            | None => None
            end
          else
            match numberLiteral (c :: r) with
            | Some (lit, rest) => Some (VNumber lit, rest)
            | None => None
            end
      end
  end.

(** [JSON.parse(text)] without reviver: [None] stands for the
    [SyntaxError] it throws. *)
Definition parse (text : jsstring) : option Value :=
  match value (S (Datatypes.length text)) text with
  | Some (v, rest) =>
      match skipWs rest with
      | [] => Some v
      | _ :: _ => None
      end
  | None => None
  end.

End Json.

(** ** Time values and the date-time string format

    The part of ECMAScript's [Date] that the persistence of the board
    goes through: [toISOString] (by which [JSON.stringify] writes a date)
    and the reading of such a string by [new Date(string)]. *)

Module Iso.

Local Open Scope Z_scope.

Definition msPerDay : Z := 86400000.

(** A time value is finite within 100,000,000 days of the epoch. *)
Definition maxTime : Z := 8640000000000000.

Definition inRange (t : Z) : bool := (- maxTime <=? t) && (t <=? maxTime).

Definition Day (t : Z) : Z := t / msPerDay.

Definition TimeWithinDay (t : Z) : Z := t mod msPerDay.

Definition DayFromYear (y : Z) : Z :=
  365 * (y - 1970) + (y - 1969) / 4 - (y - 1901) / 100 + (y - 1601) / 400.

(** The year a day falls in: the largest [y] with [DayFromYear y <= d].
    The mean length of a year puts the estimate within one year of it. *)
Definition YearFromDay (d : Z) : Z :=
  let y := 1970 + (400 * d) / 146097 in
  if d <? DayFromYear y then y - 1
  else if DayFromYear (y + 1) <=? d then y + 1
  else y.

(** 1 in a leap year, 0 otherwise. *)
Definition InLeapYear (y : Z) : Z :=
  if negb (y mod 4 =? 0) then 0
  else if negb (y mod 100 =? 0) then 1
  else if negb (y mod 400 =? 0) then 0
  else 1.

(** The day of the year (from 0) on which month [m] (from 0) starts. *)
Definition monthStart (m leap : Z) : Z :=
  if m <=? 0 then 0
  else if m =? 1 then 31
  else if m =? 2 then 59 + leap
  else if m =? 3 then 90 + leap
  else if m =? 4 then 120 + leap
  else if m =? 5 then 151 + leap
  else if m =? 6 then 181 + leap
  else if m =? 7 then 212 + leap
  else if m =? 8 then 243 + leap
  else if m =? 9 then 273 + leap
  else if m =? 10 then 304 + leap
  else 334 + leap.

(** The month (from 0) of a day of the year. *)
Definition MonthFromDay (dayWithinYear leap : Z) : Z :=
  if dayWithinYear <? 31 then 0
  else if dayWithinYear <? 59 + leap then 1
  else if dayWithinYear <? 90 + leap then 2
  else if dayWithinYear <? 120 + leap then 3
  else if dayWithinYear <? 151 + leap then 4
  else if dayWithinYear <? 181 + leap then 5
  else if dayWithinYear <? 212 + leap then 6
  else if dayWithinYear <? 243 + leap then 7
  else if dayWithinYear <? 273 + leap then 8
  else if dayWithinYear <? 304 + leap then 9
  else if dayWithinYear <? 334 + leap then 10
  else 11.

Definition YearFromTime (t : Z) : Z := YearFromDay (Day t).

Definition DayWithinYear (t : Z) : Z := Day t - DayFromYear (YearFromTime t).

Definition MonthFromTime (t : Z) : Z :=
  MonthFromDay (DayWithinYear t) (InLeapYear (YearFromTime t)).

Definition DateFromTime (t : Z) : Z :=
  DayWithinYear t
  - monthStart (MonthFromTime t) (InLeapYear (YearFromTime t)) + 1.

Definition HourFromTime (t : Z) : Z := TimeWithinDay t / 3600000.
Definition MinFromTime (t : Z) : Z := (TimeWithinDay t / 60000) mod 60.
Definition SecFromTime (t : Z) : Z := (TimeWithinDay t / 1000) mod 60.
Definition msFromTime (t : Z) : Z := TimeWithinDay t mod 1000.

Definition MakeTime (hour min sec ms : Z) : Z :=
  hour * 3600000 + min * 60000 + sec * 1000 + ms.

(** For a month from 0 to 11. *)
Definition MakeDay (year month date : Z) : Z :=
  DayFromYear year + monthStart month (InLeapYear year) + date - 1.

Definition MakeDate (day time : Z) : Z := day * msPerDay + time.

Definition digit (n : Z) : N := Z.to_N (48 + n).

(** [n] in [width] decimal digits, zeros in front. *)
Fixpoint pad (width : nat) (n : Z) : jsstring :=
  match width with
  | O => []
  | S w =>
      digit (n / 10 ^ Z.of_nat w) :: pad w (n mod 10 ^ Z.of_nat w)
  end.

Definition yearString (y : Z) : jsstring :=
  if (0 <=? y) && (y <=? 9999) then pad 4 y
  else if y <? 0 then 45%N :: pad 6 (- y)
  else 43%N :: pad 6 y.

(** [new Date(t).toISOString()] for a valid time value [t]:
    YYYY-MM-DDTHH:mm:ss.sssZ, the year in six digits with its sign when it
    is outside 0..9999. *)
Definition toISOString (t : Z) : jsstring :=
  yearString (YearFromTime t)
  ++ 45%N :: pad 2 (MonthFromTime t + 1)
  ++ 45%N :: pad 2 (DateFromTime t)
  ++ 84%N :: pad 2 (HourFromTime t)
  ++ 58%N :: pad 2 (MinFromTime t)
  ++ 58%N :: pad 2 (SecFromTime t)
  ++ 46%N :: pad 3 (msFromTime t)
  ++ [90%N].

(** Exactly [width] digits: their value on top of [acc], and the rest. *)
Fixpoint field (width : nat) (acc : Z) (s : jsstring) : option (Z * jsstring) :=
  match width with
  | O => Some (acc, s)
  | S w =>
      match s with
      | c :: r =>
          if Json.isDigit c then field w (10 * acc + (Z.of_N c - 48)) r
          else None
      | [] => None
      end
  end.

Definition expect (c : N) (s : jsstring) : option jsstring :=
  match s with
  | x :: r => if (x =? c)%N then Some r else None
  | [] => None
  end.

Definition andThen {A B : Type} (m : option A) (k : A -> option B) : option B :=
  match m with
  | Some a => k a
  | None => None
  end.

(** The fields after the year of a complete date-time string in UTC, and
    the time value that all the fields stand for, by [MakeDay], [MakeTime]
    and [MakeDate]. *)
Definition dateTimeFields (year : Z) (s1 : jsstring) : option Z :=
  andThen (expect 45 s1) (fun s2 =>
  andThen (field 2 0 s2) (fun '(month, s3) =>
  andThen (expect 45 s3) (fun s4 =>
  andThen (field 2 0 s4) (fun '(date, s5) =>
  andThen (expect 84 s5) (fun s6 =>
  andThen (field 2 0 s6) (fun '(hour, s7) =>
  andThen (expect 58 s7) (fun s8 =>
  andThen (field 2 0 s8) (fun '(min, s9) =>
  andThen (expect 58 s9) (fun s10 =>
  andThen (field 2 0 s10) (fun '(sec, s11) =>
  andThen (expect 46 s11) (fun s12 =>
  andThen (field 3 0 s12) (fun '(ms, s13) =>
  andThen (expect 90 s13) (fun s14 =>
  match s14 with
  | [] =>
      Some (MakeDate (MakeDay year (month - 1) date)
              (MakeTime hour min sec ms))
  | _ :: _ => None
  end))))))))))))).

(** The year is written in four digits, or in six after a sign. *)
Definition fromFields (s : jsstring) : option Z :=
  let '(sign, width, s0) :=
    match s with
    | c :: r =>
        if (c =? 43)%N then (1, 6%nat, r)
        else if (c =? 45)%N then (-1, 6%nat, r)
        else (1, 4%nat, s)
    | [] => (1, 4%nat, s)
    end in
  andThen (field width 0 s0) (fun '(year, s1) =>
  dateTimeFields (sign * year) s1).

(** [Date.parse] on the strings that [toISOString] produces: the time
    value of a string that is the rendering of a time value in range.
    Every other string ([None]) is left to the implementation. *)
Definition decode (s : jsstring) : option Z :=
  match fromFields s with
  | Some t =>
      if inRange t && streq (toISOString t) s then Some t else None
  | None => None
  end.

End Iso.

(** ** [JSON.stringify] of a board *)

Module Stringify.

Definition isHigh (c : N) : bool := ((55296 <=? c) && (c <=? 56319))%N.
Definition isLow (c : N) : bool := ((56320 <=? c) && (c <=? 57343))%N.

Definition hexDigit (n : N) : N := (if n <? 10 then 48 + n else 87 + n)%N.

(** [UnicodeEscape]: backslash, u and four lower-case hexadecimal digits. *)
Definition unicodeEscape (c : N) : jsstring :=
  [92; 117; hexDigit (c / 4096); hexDigit ((c / 256) mod 16);
   hexDigit ((c / 16) mod 16); hexDigit (c mod 16)]%N.

(** [QuoteJSONString] between the quotes: the short escapes, a numeric
    escape for the other control characters and for a surrogate that is
    not part of a pair, every other code unit as it is. *)
Fixpoint quoteBody (s : jsstring) : jsstring :=
  match s with
  | [] => []
  | c :: r =>
      if (c =? 8)%N then 92%N :: 98%N :: quoteBody r
      else if (c =? 9)%N then 92%N :: 116%N :: quoteBody r
      else if (c =? 10)%N then 92%N :: 110%N :: quoteBody r
      else if (c =? 12)%N then 92%N :: 102%N :: quoteBody r
      else if (c =? 13)%N then 92%N :: 114%N :: quoteBody r
      else if (c =? 34)%N then 92%N :: 34%N :: quoteBody r
      else if (c =? 92)%N then 92%N :: 92%N :: quoteBody r
      else if (c <? 32)%N then unicodeEscape c ++ quoteBody r
      else if isHigh c then
        match r with
        | d :: r' =>
            if isLow d then c :: d :: quoteBody r'
            else unicodeEscape c ++ quoteBody r
        | [] => unicodeEscape c
        end
      else if isLow c then unicodeEscape c ++ quoteBody r
      else c :: quoteBody r
  end.

Definition quote (s : jsstring) : jsstring := 34%N :: quoteBody s ++ [34%N].

(** A property name that needs no escape, quoted, and the colon. *)
Definition key (name : string) : jsstring := 34%N :: js name ++ [34%N; 58%N].

(** The items of an array, commas between them. *)
Fixpoint commaSep (items : list jsstring) : jsstring :=
  match items with
  | [] => []
  | [x] => x
  | x :: rest => x ++ 44%N :: commaSep rest
  end.

Definition arrayText (items : list jsstring) : jsstring :=
  91%N :: commaSep items ++ [93%N].

(** A [Date] is written by its [toJSON]: the ISO string of a valid date,
    [null] for an invalid one. *)
Definition dateText (d : Date) : jsstring :=
  match d with
  | Some t => quote (Iso.toISOString t)
  | None => js "null"
  end.

(** A property whose value is [undefined] is left out. *)
Definition cardText (c : Card) : jsstring :=
  123%N :: key "id" ++ quote (card_id c)
  ++ 44%N :: key "title" ++ quote (card_title c)
  ++ match card_description c with
     | Some d => 44%N :: key "description" ++ quote d
     | None => []
     end
  ++ 44%N :: key "createdAt" ++ dateText (card_createdAt c)
  ++ [125%N].

Definition listText (l : List) : jsstring :=
  123%N :: key "id" ++ quote (list_id l)
  ++ 44%N :: key "title" ++ quote (list_title l)
  ++ 44%N :: key "cards" ++ arrayText (map cardText (list_cards l))
  ++ [125%N].

(** [JSON.stringify(board)]. The properties are written in the order of
    the interface declarations; the order in which an object of the
    running program holds them does not change what is read back. *)
Definition boardText (b : Board) : jsstring :=
  123%N :: key "id" ++ quote (board_id b)
  ++ 44%N :: key "title" ++ quote (board_title b)
  ++ 44%N :: key "lists" ++ arrayText (map listText (board_lists b))
  ++ [125%N].

End Stringify.

(** ** Boards as values *)

Definition cardValue (c : Card) : Value :=
  VObject
    ([ (js "id", VString (card_id c)); (js "title", VString (card_title c)) ]
     ++ match card_description c with
        | Some d => [ (js "description", VString d) ]
        | None => []
        end
     ++ [ (js "createdAt", VDate (card_createdAt c)) ]).

Definition listValue (l : List) : Value :=
  VObject
    [ (js "id", VString (list_id l)); (js "title", VString (list_title l));
      (js "cards", VArray (map cardValue (list_cards l)) []) ].

Definition boardValue (b : Board) : Value :=
  VObject
    [ (js "id", VString (board_id b)); (js "title", VString (board_title b));
      (js "lists", VArray (map listValue (board_lists b)) []) ].

(** The typed reading of a value: the board it is, if it has the shape of
    the interfaces (further properties are ignored). *)
Definition optionList {A : Type} (l : list (option A)) : option (list A) :=
  fold_right (fun x acc =>
                match x, acc with
                | Some a, Some rest => Some (a :: rest)
                | _, _ => None
                end) (Some []) l.

Definition asString (v : option Value) : option jsstring :=
  match v with Some (VString s) => Some s | _ => None end.

Definition asCard (v : Value) : option Card :=
  match v with
  | VObject props =>
      match asString (Json.getProp props (js "id")),
            asString (Json.getProp props (js "title")),
            Json.getProp props (js "description"),
            Json.getProp props (js "createdAt") with
      | Some i, Some t, None, Some (VDate d) => Some (mkCard i t None d)
      | Some i, Some t, Some (VString s), Some (VDate d) =>
          Some (mkCard i t (Some s) d)
      | _, _, _, _ => None
      end
  | _ => None
  end.

Definition asList (v : Value) : option List :=
  match v with
  | VObject props =>
      match asString (Json.getProp props (js "id")),
            asString (Json.getProp props (js "title")),
            Json.getProp props (js "cards") with
      | Some i, Some t, Some (VArray items _) =>
          match optionList (map asCard items) with
          | Some cards => Some (mkList i t cards)
          | None => None
          end
      | _, _, _ => None
      end
  | _ => None
  end.

Definition asBoard (v : Value) : option Board :=
  match v with
  | VObject props =>
      match asString (Json.getProp props (js "id")),
            asString (Json.getProp props (js "title")),
            Json.getProp props (js "lists") with
      | Some i, Some t, Some (VArray items _) =>
          match optionList (map asList items) with
          | Some lists => Some (mkBoard i t lists)
          | None => None
          end
      | _, _, _ => None
      end
  | _ => None
  end.

(** ** The two effects: load on mount, save on change *)

Section Persistence.

(** [new Date(v)] where ECMAScript leaves the result to the
    implementation or to Number arithmetic: a number, a string that is not
    the rendering of a time value, an array or an object (whose conversion
    to a primitive can throw). *)
Variable dateFallback : Value -> Outcome Date.

(** [new Date(v)], [None] being [undefined]. *)
Definition newDate (v : option Value) : Outcome Date :=
  match v with
  | None => Returns None
  | Some VNull => Returns (Some 0%Z)
  | Some (VBool true) => Returns (Some 1%Z)
  | Some (VBool false) => Returns (Some 0%Z)
  | Some (VDate t) => Returns t
  | Some (VString s) =>
      match Iso.decode s with
      | Some t => Returns (Some t)
      | None => dateFallback (VString s)
      end
  | Some w => dateFallback w
  end.

(** [v.name] for one of the names read here ([lists], [cards],
    [createdAt]), which no prototype defines: reading a property of
    [null] throws, a primitive has none of them. *)
Definition getMember (v : Value) (name : jsstring) : Outcome (option Value) :=
  match v with
  | VNull => Throws TypeError
  | VObject props => Returns (Json.getProp props name)
  | VArray _ own => Returns (Json.getProp own name)
  | _ => Returns None
  end.

(** [v.name = w] in strict code (the file is a module): assigning to a
    property of a primitive throws. A [Date] object would keep the
    property; no value here records it, and [JSON.parse] builds no
    [Date]. *)
Definition setMember (v : Value) (name : jsstring) (w : Value) : Outcome Value :=
  match v with
  | VObject props => Returns (VObject (Json.setProp props name w))
  | VArray items own => Returns (VArray items (Json.setProp own name w))
  | VDate t => Returns (VDate t)
  | _ => Throws TypeError
  end.

(** [v.forEach(f)]: only an array has the method; [undefined] and the
    other values throw. *)
Definition arrayForEach (v : option Value) (f : Value -> Outcome Value)
    : Outcome Value :=
  match v with
  | Some (VArray items own) =>
      items' <- forEach f items ;;
      Returns (VArray items' own)
  | _ => Throws TypeError
  end.

(** [card.createdAt = new Date(card.createdAt)] *)
Definition reviveCard (card : Value) : Outcome Value :=
  createdAt <- getMember card (js "createdAt") ;;
  d <- newDate createdAt ;;
  setMember card (js "createdAt") (VDate d).

(** [list.cards.forEach(...)]; the cards are changed in place. *)
Definition reviveList (list : Value) : Outcome Value :=
  cards <- getMember list (js "cards") ;;
  cards' <- arrayForEach cards reviveCard ;;
  match list with
  | VObject props => Returns (VObject (Json.setProp props (js "cards") cards'))
  | VArray items own =>
      Returns (VArray items (Json.setProp own (js "cards") cards'))
  | _ => Returns list
  end.

(** The load effect, given what [localStorage.getItem] returned ([None]
    for [null]): the value handed to [setBoard], or [None] when
    [setBoard] is not called and the board stays the initial one. *)
Definition load (savedBoard : option jsstring) : Outcome (option Value) :=
  match savedBoard with
  | None => Returns None
  | Some text =>
      if negb (JsString.truthy text) then Returns None
      else
        match Json.parse text with
        | None => Throws SyntaxError
        | Some parsedBoard =>
            lists <- getMember parsedBoard (js "lists") ;;
            lists' <- arrayForEach lists reviveList ;;
            match parsedBoard with
            | VObject props =>
                Returns (Some (VObject (Json.setProp props (js "lists") lists')))
            | VArray items own =>
                Returns (Some (VArray items (Json.setProp own (js "lists") lists')))
            | _ => Returns (Some parsedBoard)
            end
        end
  end.

End Persistence.

(** The save effect: what [localStorage.setItem] stores under the key. *)
Definition save (b : Board) : jsstring := Stringify.boardText b.

(** One way to fill in [dateFallback], to run [load] on the examples below;
    none of them consults it. *)
Definition strictDate (v : Value) : Outcome Date := Returns None.

(** ** The properties under study, as predicates on the embedding *)

(** What a move of [C] from [S] to [T] has to achieve: at the place of [S]
    stands [S] without [C], its other cards in their order; at the place
    of [T] stands [T] with [C] appended. *)
Definition moveCard_moves (b : Board) (S T : List) (C : Card) : Prop :=
  let b' := moveCard (card_id C) (list_id S) (list_id T) b in
  exists before after,
    list_cards S = before ++ C :: after /\
    ~ In C (before ++ after) /\
    (forall i, nth_error (board_lists b) i = Some S ->
       nth_error (board_lists b') i = Some (with_cards S (before ++ after))) /\
    (forall j, nth_error (board_lists b) j = Some T ->
       nth_error (board_lists b') j = Some (with_cards T (list_cards T ++ [C]))).


(** What a move of [C] out of [S] towards an identifier that names no list
    has to achieve: the list at the place of [S] no longer holds [C], and
    [C] is in no list of the resulting board. *)
Definition moveCard_drops (b : Board) (S : List) (C : Card)
    (targetListId : jsstring) : Prop :=
  let b' := moveCard (card_id C) (list_id S) targetListId b in
  (forall i, nth_error (board_lists b) i = Some S ->
     exists S', nth_error (board_lists b') i = Some S' /\
                ~ In C (list_cards S')) /\
  (forall L, In L (board_lists b') -> ~ In C (list_cards L)).



(** A title that [trim] reduces to the empty string. *)
Definition blank (title : jsstring) : Prop := JsString.trim title = [].

(** The guard against blank titles, read as a property of the store
    operation [addCard] itself: the cards of [L] stay as they are. *)
Definition addCard_refuses_blank : Prop :=
  forall (now created : Z) (b : Board) (L : List) (t : jsstring) (i : nat),
    nth_error (board_lists b) i = Some L -> blank t ->
    exists L', nth_error (board_lists (addCard now created (list_id L) t b)) i
               = Some L' /\ list_cards L' = list_cards L.

(** The guard against blank titles, read as a property of the store
    operation [updateListTitle] itself. *)
Definition updateListTitle_refuses_blank : Prop :=
  forall (b : Board) (L : List) (t : jsstring) (i : nat),
    nth_error (board_lists b) i = Some L ->
    (blank t -> updateListTitle (list_id L) t b = b) /\
    (~ blank t ->
     nth_error (board_lists (updateListTitle (list_id L) t b)) i
     = Some (with_title L t)).

(** Two cards added to the first list while the clock shows the same
    millisecond. *)
Definition sameMillisecond : list StoreOp :=
  [ OpAddCard 1000 1000 (js "1") (js "a");
    OpAddCard 1000 1000 (js "1") (js "b") ].

(** The board after [sameMillisecond]: the first list holds two cards with
    the identifier 1000. *)
Definition twinBoard : Board := runOps sameMillisecond initialBoard.

Definition cardA : Card := mkCard (js "1000") (js "a") None (Some 1000%Z).
Definition cardB : Card := mkCard (js "1000") (js "b") None (Some 1000%Z).

Definition twinSource : List := mkList (js "1") (js "Por Hacer") [cardA; cardB].
Definition twinTarget : List := mkList (js "2") (js "En Progreso") [].

(** A board in which two lists carry the identifier 1 (a snapshot in
    [localStorage] may hold one: nothing checks it on load); the card sits
    in the second of them. *)
Definition shadowedSource : List := mkList (js "1") (js "B") [cardA].


(** Two cards with the same title added to the first and to the second
    list while the clock shows the same millisecond. *)
Definition sameMillisecondTwoLists : list StoreOp :=
  [ OpAddCard 1000 1000 (js "1") (js "a");
    OpAddCard 1000 1000 (js "2") (js "a") ].

(** The board after [sameMillisecondTwoLists]: the first and the second
    list hold a card with the identifier 1000 each, alike in every
    field. *)
Definition echoBoard : Board := runOps sameMillisecondTwoLists initialBoard.

Definition echoSource : List := mkList (js "1") (js "Por Hacer") [cardA].
Definition echoOther : List := mkList (js "2") (js "En Progreso") [cardA].

(** Two cards added a millisecond apart, for the instances on which the
    theorems are exercised. *)
Definition cardC : Card := mkCard (js "1001") (js "b") None (Some 1001%Z).

Definition tidyBoard : Board :=
  runOps [ OpAddCard 1000 1000 (js "1") (js "a");
           OpAddCard 1001 1001 (js "1") (js "b") ] initialBoard.

Definition tidySource : List := mkList (js "1") (js "Por Hacer") [cardA; cardC].

(** What [JSON.parse] builds from the text of a board: the creation date
    of a card is the string written for it, or [null]. *)
Definition storedDate (d : Date) : Value :=
  match d with
  | Some t => VString (Iso.toISOString t)
  | None => VNull
  end.

Definition cardJson (c : Card) : Value :=
  VObject
    ([ (js "id", VString (card_id c)); (js "title", VString (card_title c)) ]
     ++ match card_description c with
        | Some d => [ (js "description", VString d) ]
        | None => []
        end
     ++ [ (js "createdAt", storedDate (card_createdAt c)) ]).

Definition listJson (l : List) : Value :=
  VObject
    [ (js "id", VString (list_id l)); (js "title", VString (list_title l));
      (js "cards", VArray (map cardJson (list_cards l)) []) ].

Definition boardJson (b : Board) : Value :=
  VObject
    [ (js "id", VString (board_id b)); (js "title", VString (board_title b));
      (js "lists", VArray (map listJson (board_lists b)) []) ].

(** The creation date after a save and a load: an invalid date comes back
    as the epoch. *)
Definition reloadedDate (d : Date) : Date :=
  match d with
  | Some t => Some t
  | None => Some 0%Z
  end.

Definition reloadedCard (c : Card) : Card :=
  mkCard (card_id c) (card_title c) (card_description c)
    (reloadedDate (card_createdAt c)).

Definition reloadedList (l : List) : List :=
  with_cards l (map reloadedCard (list_cards l)).

Definition reloaded (b : Board) : Board :=
  with_lists b (map reloadedList (board_lists b)).

(** The dates of a board are time values a [Date] can hold. *)
Definition datesInRange (b : Board) : Prop :=
  forall l c t, In l (board_lists b) -> In c (list_cards l) ->
  card_createdAt c = Some t -> Iso.inRange t = true.

(** Every card of the board has a valid creation date. *)
Definition datesValid (b : Board) : Prop :=
  forall l c, In l (board_lists b) -> In c (list_cards l) ->
  exists t, card_createdAt c = Some t /\ Iso.inRange t = true.

(** The round trip through storage as a law for every board (whose dates
    a [Date] can hold): what is loaded reads as the board saved. *)
Definition save_load_roundtrip : Prop :=
  forall (dateFallback : Value -> Outcome Date) (b : Board),
    datesInRange b ->
    exists v, load dateFallback (Some (save b)) = Returns (Some v) /\
              asBoard v = Some b.

(** Loading as an operation that cannot fail, whatever is stored. *)
Definition load_never_throws : Prop :=
  forall (dateFallback : Value -> Outcome Date) (stored : option jsstring),
    exists r, load dateFallback stored = Returns r.

(** Does the value hold an array under [lists]? *)
Definition hasListsArray (v : Value) : bool :=
  match v with
  | VObject props | VArray _ props =>
      match Json.getProp props (js "lists") with
      | Some (VArray _ _) => true
      | _ => false
      end
  | _ => false
  end.

(** A board with a card whose creation date is invalid. *)
Definition undatedBoard : Board :=
  mkBoard (js "1") (js "t")
    [ mkList (js "1") (js "A") [ mkCard (js "7") (js "a") None None ] ].

(** What [Json.stringBody] does with one more decoded unit in front. *)
Definition consUnit (u : N) (r : option (jsstring * jsstring))
    : option (jsstring * jsstring) :=
  match r with
  | Some (str, rest) => Some (u :: str, rest)
  | None => None
  end.

(** A property name that is read back as it is written. *)
Definition plainName (name : string) : Prop :=
  forall X, Json.stringBody (js name ++ 34%N :: X) = Some (js name, X).

Definition len (s : jsstring) : nat := Datatypes.length s.

(** A parser that takes a character at least of the text it reads. *)
Definition shrinks (pv : jsstring -> option (Value * jsstring)) : Prop :=
  forall s v r, pv s = Some (v, r) -> (len r < len s)%nat.

(** ** The remaining handlers of [ListComponent] and [App] *)

(** [startEditingTitle] of the [ListComponent] that displays [list]. *)
Definition startEditingTitle (list : List) (st : AppState * ListState)
    : AppState * ListState :=
  let (app, ls) := st in
  ({| board := board app;
      draggedCard := draggedCard app;
      isAddingList := isAddingList app;
      newListTitle := newListTitle app;
      editingListId := Some (list_id list);
      editingListTitle := list_title list |},
   {| isAddingCard := isAddingCard ls;
      newCardTitle := newCardTitle ls;
      showListMenu := false |}).

(** [cancelEdit] of a [ListComponent]. *)
Definition cancelEdit (app : AppState) : AppState :=
  {| board := board app;
     draggedCard := draggedCard app;
     isAddingList := isAddingList app;
     newListTitle := newListTitle app;
     editingListId := None;
     editingListTitle := [] |}.

(** The input of the title being edited: [setEditingListTitle]. *)
Definition typeEditedTitle (title : jsstring) (app : AppState) : AppState :=
  {| board := board app;
     draggedCard := draggedCard app;
     isAddingList := isAddingList app;
     newListTitle := newListTitle app;
     editingListId := editingListId app;
     editingListTitle := title |}.

(** ** Further predicates on the embedding *)

(** The identifier and the title of every list, in the order of the board. *)
Definition listHeaders (b : Board) : list (jsstring * jsstring) :=
  map (fun l => (list_id l, list_title l)) (board_lists b).

(** The identifier and the cards of every list, in the order of the board. *)
Definition listContents (b : Board) : list (jsstring * list Card) :=
  map (fun l => (list_id l, list_cards l)) (board_lists b).

(** Every card of the board, list by list. *)
Definition allCards (b : Board) : list Card :=
  flat_map list_cards (board_lists b).

(** A title made of white space only (or empty). *)
Definition allSpaces (title : jsstring) : bool :=
  forallb JsString.is_space title.

(** The identifiers of the lists and of the cards are pairwise distinct. *)
Definition distinctIds (b : Board) : Prop :=
  NoDup (listIds b) /\ NoDup (cardIds b).

(** The clock reading that an operation turns into an identifier is new
    to the board: to its cards for [addCard], to its lists for
    [addList]. *)
Definition freshFor (b : Board) (o : StoreOp) : Prop :=
  match o with
  | OpAddCard now _ _ _ => ~ In (JsString.ofInteger now) (cardIds b)
  | OpAddList now _ => ~ In (JsString.ofInteger now) (listIds b)
  | _ => True
  end.

Fixpoint allFresh (ops : list StoreOp) (b : Board) : Prop :=
  match ops with
  | [] => True
  | o :: rest => freshFor b o /\ allFresh rest (applyOp b o)
  end.

(** An operation other than [addCard]. *)
Definition addsNoCard (o : StoreOp) : bool :=
  match o with
  | OpAddCard _ _ _ _ => false
  | _ => true
  end.

(** How many times an identifier occurs among some identifiers. *)
Fixpoint occurrences (x : jsstring) (ids : list jsstring) : nat :=
  match ids with
  | [] => 0
  | y :: rest => (if streq y x then 1 else 0) + occurrences x rest
  end.

(** The card identifiers of some lists, list by list. *)
Definition idsOf (lists : list List) : list jsstring :=
  flat_map (fun l => map card_id (list_cards l)) lists.

(** The text of an object that holds an empty array under [lists] and
    nothing else. *)
Definition onlyListsText : jsstring :=
  [123; 34; 108; 105; 115; 116; 115; 34; 58; 91; 93; 125]%N.

(** * Properties *)

(** ** Strings *)

Lemma streq_eq (a b : jsstring) : streq a b = true <-> a = b.
Proof.
  unfold streq. revert b; induction a as [|x a IH]; intros [|y b]; simpl; try easy.
  rewrite andb_true_iff, N.eqb_eq, IH. split.
  - intros [-> ->]; reflexivity.
  - intros H; injection H; auto.
Qed.

Lemma streq_refl (a : jsstring) : streq a a = true.
Proof. apply streq_eq; reflexivity. Qed.

Lemma streq_neq (a b : jsstring) : streq a b = false <-> a <> b.
Proof. rewrite <- streq_eq. destruct (streq a b); split; congruence. Qed.

Lemma truthy_trim_blank (s : jsstring) :
  JsString.truthy (JsString.trim s) = false <-> blank s.
Proof. unfold blank. destruct (JsString.trim s); simpl; split; congruence. Qed.

Lemma digits_inj (d e : Decimal.uint) :
  JsString.digits d = JsString.digits e -> d = e.
Proof.
  revert e; induction d; intros e H; destruct e; simpl in H;
    try discriminate; try reflexivity;
    injection H as H; f_equal; auto.
Qed.

Lemma digits_not_minus (d : Decimal.uint) (s : jsstring) :
  JsString.digits d <> 45%N :: s.
Proof. destruct d; simpl; congruence. Qed.

(** Distinct clock readings give distinct identifiers. *)
Lemma ofInteger_inj (n m : Z) :
  JsString.ofInteger n = JsString.ofInteger m -> n = m.
Proof.
  unfold JsString.ofInteger. intros H.
  rewrite <- (DecimalZ.of_to n), <- (DecimalZ.of_to m).
  destruct (Z.to_int n) as [d|d], (Z.to_int m) as [e|e].
  - apply digits_inj in H; congruence.
  - apply digits_not_minus in H; contradiction.
  - symmetry in H; apply digits_not_minus in H; contradiction.
  - injection H as H; apply digits_inj in H; congruence.
Qed.

(** ** Lookups by identifier in lists without repeated identifiers *)

Section ByKey.

Variable A : Type.
Variable key : A -> jsstring.

Lemma find_key_unique (l : list A) (x : A) :
  NoDup (map key l) -> In x l ->
  find (fun y => streq (key y) (key x)) l = Some x.
Proof.
  induction l as [|y l IH]; simpl; intros ND Hin; [contradiction|].
  inversion ND as [|? ? Hnotin ND']; subst.
  destruct Hin as [->|Hin].
  - now rewrite streq_refl.
  - destruct (streq (key y) (key x)) eqn:E; [|auto].
    apply streq_eq in E. exfalso; apply Hnotin.
    rewrite E. now apply in_map.
Qed.

Lemma filter_key_other (l : list A) (k : jsstring) :
  ~ In k (map key l) ->
  filter (fun y => negb (streq (key y) k)) l = l.
Proof.
  induction l as [|y l IH]; simpl; intros Hn; [reflexivity|].
  destruct (streq (key y) k) eqn:E; simpl.
  - apply streq_eq in E. exfalso; apply Hn; now left.
  - f_equal; apply IH; intros H; apply Hn; now right.
Qed.

Lemma filter_key_split (l1 l2 : list A) (x : A) :
  NoDup (map key (l1 ++ x :: l2)) ->
  filter (fun y => negb (streq (key y) (key x))) (l1 ++ x :: l2) = l1 ++ l2.
Proof.
  intros ND. rewrite map_app in ND; simpl in ND.
  pose proof (NoDup_remove_2 _ _ _ ND) as Hn.
  rewrite filter_app; simpl. rewrite streq_refl; simpl.
  rewrite !filter_key_other; [reflexivity| |];
    intros H; apply Hn, in_or_app; auto.
Qed.

Lemma NoDup_key_not_in (l1 l2 : list A) (x : A) :
  NoDup (map key (l1 ++ x :: l2)) -> ~ In x (l1 ++ l2).
Proof.
  intros ND Hin. rewrite map_app in ND; simpl in ND.
  apply NoDup_remove_2 in ND. apply ND.
  rewrite <- map_app. now apply in_map.
Qed.

End ByKey.



(** ** Records rebuilt with the field they had *)

Lemma with_lists_same (b : Board) : with_lists b (board_lists b) = b.
Proof. now destruct b. Qed.

Lemma with_cards_same (l : List) : with_cards l (list_cards l) = l.
Proof. now destruct l. Qed.

Lemma with_title_same (l : List) : with_title l (list_title l) = l.
Proof. now destruct l. Qed.

Lemma map_fixed {A : Type} (f : A -> A) (l : list A) :
  (forall x, In x l -> f x = x) -> map f l = l.
Proof.
  intros H. rewrite <- (map_id l) at 2. now apply map_ext_in.
Qed.

(** ** Cards of different lists in a board without repeated card
    identifiers *)


(** ** The board store *)

Lemma nth_error_map_some {A B : Type} (f : A -> B) {l : list A} {i : nat} {x : A} :
  nth_error l i = Some x -> nth_error (map f l) i = Some (f x).
Proof. intros H. now rewrite nth_error_map, H. Qed.

Lemma find_key_present (A : Type) (key : A -> jsstring) (l : list A) (x : A) :
  In x l -> exists y, find (fun z => streq (key z) (key x)) l = Some y.
Proof.
  induction l as [|z l IH]; simpl; intros Hin; [contradiction|].
  destruct (streq (key z) (key x)) eqn:E; [eauto|].
  destruct Hin as [->|Hin]; [|auto].
  rewrite streq_refl in E; discriminate.
Qed.

Lemma filter_idempotent (A : Type) (p : A -> bool) (l : list A) :
  filter p (filter p l) = filter p l.
Proof.
  induction l as [|x l IH]; simpl; [reflexivity|].
  destruct (p x) eqn:E; simpl; rewrite ?E, IH; reflexivity.
Qed.

(** C9. [moveCard] with the source list as target returns the board it was
    given, whatever the card identifier. *)
Theorem moveCard_same_list (cardId listId : jsstring) (b : Board) :
  moveCard cardId listId listId b = b.
Proof. unfold moveCard. now rewrite streq_refl. Qed.

Lemma with_lists_header (b : Board) (ls : list List) :
  board_id (with_lists b ls) = board_id b /\
  board_title (with_lists b ls) = board_title b.
Proof. split; reflexivity. Qed.

Lemma applyOp_header (b : Board) (o : StoreOp) :
  board_id (applyOp b o) = board_id b /\
  board_title (applyOp b o) = board_title b.
Proof.
  destruct o as [t0 t1 listId title | listId cardId
                | cardId sourceListId targetListId | t0 title
                | listId newTitle | listId];
    simpl; try (split; reflexivity).
  - unfold moveCard.
    destruct (streq sourceListId targetListId); [split; reflexivity|].
    destruct (find _ (board_lists b)) as [l|]; [|split; reflexivity].
    destruct (find _ (list_cards l)); [apply with_lists_header|split; reflexivity].
  - unfold addList; simpl.
    destruct (negb _); simpl; split; reflexivity.
Qed.

(** C10. Each of the six store operations ([addCard], [deleteCard],
    [moveCard], [addList], [updateListTitle], [deleteList]), on every
    board and with all arguments, leaves the identifier and the title of
    the board as they were; so does every sequence of them. *)
Theorem store_ops_keep_board_header (b : Board) :
  (forall now created listId title,
     board_id (addCard now created listId title b) = board_id b /\
     board_title (addCard now created listId title b) = board_title b) /\
  (forall listId cardId,
     board_id (deleteCard listId cardId b) = board_id b /\
     board_title (deleteCard listId cardId b) = board_title b) /\
  (forall cardId sourceListId targetListId,
     board_id (moveCard cardId sourceListId targetListId b) = board_id b /\
     board_title (moveCard cardId sourceListId targetListId b)
     = board_title b) /\
  (forall now app, board app = b ->
     board_id (board (addList now app)) = board_id b /\
     board_title (board (addList now app)) = board_title b) /\
  (forall listId newTitle,
     board_id (updateListTitle listId newTitle b) = board_id b /\
     board_title (updateListTitle listId newTitle b) = board_title b) /\
  (forall listId,
     board_id (deleteList listId b) = board_id b /\
     board_title (deleteList listId b) = board_title b) /\
  (forall ops,
     board_id (runOps ops b) = board_id b /\
     board_title (runOps ops b) = board_title b).
Proof.
  repeat apply conj; intros.
  - apply (applyOp_header b (OpAddCard now created listId title)).
  - apply (applyOp_header b (OpDeleteCard listId cardId)).
  - apply (applyOp_header b (OpMoveCard cardId sourceListId targetListId)).
  - subst b. unfold addList. destruct (negb _); split; reflexivity.
  - apply (applyOp_header b (OpUpdateListTitle listId newTitle)).
  - apply (applyOp_header b (OpDeleteList listId)).
  - revert b. induction ops as [|o ops IH]; intros b; [split; reflexivity|].
    simpl. destruct (IH (applyOp b o)) as [-> ->]. apply applyOp_header.
Qed.

(** C10 on [addList] with a typed title. *)
Lemma store_ops_keep_board_header_witness :
  board_id (board (addList 5 (typeListTitle (js "Blocked") initialBoard)))
  = board_id initialBoard.
Proof.
  destruct (store_ops_keep_board_header initialBoard)
    as (_ & _ & _ & Hadd & _).
  exact (proj1 (Hadd 5%Z (typeListTitle (js "Blocked") initialBoard) eq_refl)).
Defined.

(** C1 (as amended). In a board whose list identifiers are pairwise
    distinct, for a card [C] of a list [S] whose card identifiers are
    pairwise distinct and a list [T] with another identifier, the move
    takes [C] out of [S], keeps the other cards of [S] in their order, and
    leaves [T] with its former cards followed by [C]. *)
Theorem moveCard_moves_unique_ids (b : Board) (S T : List) (C : Card) :
  NoDup (listIds b) ->
  NoDup (map card_id (list_cards S)) ->
  In S (board_lists b) -> In T (board_lists b) ->
  list_id S <> list_id T ->
  In C (list_cards S) ->
  moveCard_moves b S T C.
Proof.
  intros NDl NDc HS HT Hne HC.
  unfold moveCard_moves, moveCard.
  apply streq_neq in Hne as Hne'. rewrite Hne'.
  rewrite (find_key_unique List list_id _ S NDl HS).
  rewrite (find_key_unique Card card_id _ C NDc HC).
  destruct (in_split _ _ HC) as (before & after & Hsplit).
  exists before, after. rewrite Hsplit in NDc.
  split; [exact Hsplit|]. split; [now apply (NoDup_key_not_in Card card_id)|].
  simpl. split.
  - intros i Hi. rewrite (nth_error_map_some _ Hi).
    rewrite streq_refl, Hsplit.
    now rewrite (filter_key_split Card card_id).
  - intros j Hj. rewrite (nth_error_map_some _ Hj).
    assert (E : streq (list_id T) (list_id S) = false)
      by (apply streq_neq; congruence).
    now rewrite E, streq_refl.
Qed.



(** C3 (as amended). The refusal of a blank title is the handler's:
    [handleAddCard] changes neither the board nor the form when the typed
    title trims to the empty string. The store operation [addCard] itself
    appends the new card to [L] whatever the title. *)
Theorem addCard_guard_is_in_handler (now created : Z) (L : List) :
  (forall app ls, blank (newCardTitle ls) ->
     handleAddCard now created L (app, ls) = (app, ls)) /\
  (forall b i t, nth_error (board_lists b) i = Some L ->
     nth_error (board_lists (addCard now created (list_id L) t b)) i
     = Some (with_cards L
               (list_cards L ++
                [mkCard (JsString.ofInteger now) t None (Some created)]))).
Proof.
  split.
  - intros app ls Hb. unfold handleAddCard.
    apply truthy_trim_blank in Hb. now rewrite Hb.
  - intros b i t Hi. unfold addCard; simpl.
    now rewrite (nth_error_map_some _ Hi), streq_refl.
Qed.

(** C7 (as amended). The refusal of a blank title is the handler's:
    [saveTitle] leaves the board as it is when the edited title trims to
    the empty string, and otherwise gives [L] the edited title. The store
    operation [updateListTitle] itself replaces the title of [L] by the
    one it is given, blank or not. *)
Theorem updateListTitle_guard_is_in_handler (L : List) :
  (forall app, blank (editingListTitle app) ->
     board (saveTitle L app) = board app) /\
  (forall app i, ~ blank (editingListTitle app) ->
     nth_error (board_lists (board app)) i = Some L ->
     nth_error (board_lists (board (saveTitle L app))) i
     = Some (with_title L (editingListTitle app))) /\
  (forall b i t, nth_error (board_lists b) i = Some L ->
     nth_error (board_lists (updateListTitle (list_id L) t b)) i
     = Some (with_title L t)).
Proof.
  assert (Hstore : forall b i t, nth_error (board_lists b) i = Some L ->
     nth_error (board_lists (updateListTitle (list_id L) t b)) i
     = Some (with_title L t)).
  { intros b i t Hi. unfold updateListTitle; simpl.
    now rewrite (nth_error_map_some _ Hi), streq_refl. }
  split; [|split; [|exact Hstore]].
  - intros app Hb. unfold saveTitle.
    apply truthy_trim_blank in Hb. now rewrite Hb.
  - intros app i Hnb Hi. unfold saveTitle.
    destruct (JsString.truthy _) eqn:E.
    + simpl. now apply Hstore.
    + apply truthy_trim_blank in E. contradiction.
Qed.

(** ** Instances and counterexamples for the board store *)

Ltac nodup_by_computation :=
  repeat (constructor; [vm_compute; intuition discriminate|]); constructor.

Ltac in_by_computation := vm_compute; intuition congruence.

(** C1, as stated, fails: after two cards were added to a list within one
    millisecond they share an identifier, and moving the second one
    appends the first one to the target. *)
Lemma moveCard_moves_twin_cex :
  In twinSource (board_lists twinBoard) /\
  In twinTarget (board_lists twinBoard) /\
  list_id twinSource <> list_id twinTarget /\
  In cardB (list_cards twinSource) /\
  ~ moveCard_moves twinBoard twinSource twinTarget cardB.
Proof.
  repeat split.
  - in_by_computation.
  - in_by_computation.
  - vm_compute; discriminate.
  - in_by_computation.
  - intros (before & after & _ & _ & _ & HT).
    specialize (HT 1%nat eq_refl). vm_compute in HT. discriminate.
Qed.

(** The same move fails as well when an earlier list carries the
    identifier of the source list: the card is looked for in that list. *)
Lemma moveCard_moves_shadowed :
  ~ moveCard_moves
      (mkBoard (js "1") (js "t")
         [ mkList (js "1") (js "A") []; shadowedSource; twinTarget ])
      shadowedSource twinTarget cardA.
Proof.
  intros (before & after & _ & _ & _ & HT).
  specialize (HT 2%nat eq_refl). vm_compute in HT. discriminate.
Qed.

(** The amended C1 on a board whose two cards were added a millisecond
    apart. *)
Lemma moveCard_moves_unique_ids_witness :
  NoDup (listIds tidyBoard) /\
  NoDup (map card_id (list_cards tidySource)) /\
  In tidySource (board_lists tidyBoard) /\
  In twinTarget (board_lists tidyBoard) /\
  list_id tidySource <> list_id twinTarget /\
  In cardC (list_cards tidySource) /\
  moveCard_moves tidyBoard tidySource twinTarget cardC.
Proof.
  assert (H1 : NoDup (listIds tidyBoard)) by nodup_by_computation.
  assert (H2 : NoDup (map card_id (list_cards tidySource)))
    by nodup_by_computation.
  assert (H3 : In tidySource (board_lists tidyBoard)) by in_by_computation.
  assert (H4 : In twinTarget (board_lists tidyBoard)) by in_by_computation.
  assert (H5 : list_id tidySource <> list_id twinTarget)
    by (vm_compute; discriminate).
  assert (H6 : In cardC (list_cards tidySource)) by in_by_computation.
  repeat (split; [assumption|]).
  exact (moveCard_moves_unique_ids tidyBoard tidySource twinTarget cardC
           H1 H2 H3 H4 H5 H6).
Defined.


(** It fails as well on a board that two calls of [addCard] within one
    millisecond lead to: the card leaves the first list, and the second
    list still holds a card with its identifier, alike in every field. *)
Lemma moveCard_drops_echo :
  In echoSource (board_lists echoBoard) /\
  NoDup (listIds echoBoard) /\
  ~ moveCard_drops echoBoard echoSource cardA (js "9").
Proof.
  split; [in_by_computation|]. split; [nodup_by_computation|].
  intros [_ H]. apply (H echoOther); in_by_computation.
Qed.




(** C3, as stated, fails: the store operation appends a card with the
    empty title to the first list of the initial board. *)
Lemma addCard_accepts_blank_cex : ~ addCard_refuses_blank.
Proof.
  intros H.
  destruct (H 0%Z 0%Z initialBoard
              (mkList (js "1") (js "Por Hacer") []) [] 0%nat eq_refl eq_refl)
    as (L' & HL' & Hcards).
  vm_compute in HL'. injection HL' as <-. discriminate.
Qed.

(** The amended C3 on a title of three spaces. *)
Lemma addCard_guard_is_in_handler_witness :
  blank (js "   ") /\
  handleAddCard 5 5 (mkList (js "1") (js "Por Hacer") [])
    (initialApp, mkListState true (js "   ") false)
  = (initialApp, mkListState true (js "   ") false).
Proof.
  split; [reflexivity|].
  apply (addCard_guard_is_in_handler 5 5 (mkList (js "1") (js "Por Hacer") [])).
  reflexivity.
Defined.

(** C7, as stated, fails: the store operation gives the first list of the
    initial board the empty title. *)
Lemma updateListTitle_accepts_blank_cex : ~ updateListTitle_refuses_blank.
Proof.
  intros H.
  destruct (H initialBoard (mkList (js "1") (js "Por Hacer") []) [] 0%nat eq_refl)
    as [Hblank _].
  specialize (Hblank eq_refl). vm_compute in Hblank. discriminate.
Qed.

(** The amended C7 on a title of one space. *)
Lemma updateListTitle_guard_is_in_handler_witness :
  blank (js " ") /\
  board (saveTitle (mkList (js "1") (js "Por Hacer") [])
           (mkApp initialBoard None false [] (Some (js "1")) (js " ")))
  = initialBoard.
Proof.
  split; [reflexivity|].
  apply (updateListTitle_guard_is_in_handler
           (mkList (js "1") (js "Por Hacer") [])).
  reflexivity.
Defined.

(** C6 fails on the code: two calls of [addCard] that read the same
    millisecond give both cards the identifier 1000. *)
Theorem addCard_same_millisecond_same_id :
  cardIds (runOps sameMillisecond initialBoard) = [js "1000"; js "1000"] /\
  ~ NoDup (cardIds (runOps sameMillisecond initialBoard)).
Proof.
  split; [reflexivity|].
  intros H. inversion H as [|x l Hnotin _]; subst.
  apply Hnotin. now left.
Qed.

(** ** Identifiers drawn from the clock *)

Lemma addCard_other_lists (now created : Z) (listId title : jsstring)
    (lists : list List) :
  ~ In listId (map list_id lists) ->
  board_lists (addCard now created listId title (mkBoard [] [] lists)) = lists.
Proof.
  unfold addCard; simpl. induction lists as [|l ls IH]; intros Hn; [reflexivity|].
  simpl in *. destruct (streq (list_id l) listId) eqn:E.
  - apply streq_eq in E. tauto.
  - f_equal. apply IH. tauto.
Qed.

Lemma addCard_cardIds (now created : Z) (listId title : jsstring) (b : Board) :
  NoDup (listIds b) ->
  exists l1 l2,
    cardIds b = l1 ++ l2 /\
    (cardIds (addCard now created listId title b) = l1 ++ l2 \/
     cardIds (addCard now created listId title b)
     = l1 ++ JsString.ofInteger now :: l2).
Proof.
  destruct b as [i t lists]. unfold cardIds, listIds, addCard; simpl.
  induction lists as [|l ls IH]; intros ND.
  - exists [], []. simpl. auto.
  - inversion ND as [|? ? Hnotin ND']; subst. simpl.
    destruct (streq (list_id l) listId) eqn:E.
    + apply streq_eq in E. subst listId.
      pose proof (addCard_other_lists now created (list_id l) title ls Hnotin)
        as Hrest.
      unfold addCard in Hrest; simpl in Hrest. rewrite Hrest.
      exists (map card_id (list_cards l)),
             (flat_map (fun l0 => map card_id (list_cards l0)) ls).
      split; [reflexivity|]. right. simpl.
      rewrite map_app. simpl. now rewrite <- app_assoc.
    + destruct (IH ND') as (l1 & l2 & E0 & [E1|E1]).
      * exists (map card_id (list_cards l) ++ l1), l2.
        rewrite E0, E1, <- !app_assoc. auto.
      * exists (map card_id (list_cards l) ++ l1), l2.
        rewrite E0, E1, <- !app_assoc. auto.
Qed.

(** In a board whose list identifiers are pairwise distinct (the card is
    appended to every list that carries the given identifier), [addCard]
    keeps the card identifiers pairwise distinct when the clock reading
    differs from every card identifier in the board. *)
Lemma addCard_fresh_keeps_distinct (now created : Z) (listId title : jsstring)
    (b : Board) :
  NoDup (listIds b) -> NoDup (cardIds b) ->
  ~ In (JsString.ofInteger now) (cardIds b) ->
  NoDup (cardIds (addCard now created listId title b)).
Proof.
  intros NDl NDc Hfresh.
  destruct (addCard_cardIds now created listId title b NDl)
    as (l1 & l2 & E0 & [E1|E1]); rewrite E1.
  - now rewrite <- E0.
  - apply (NoDup_Add (Add_app _ l1 l2)). rewrite <- E0. auto.
Qed.

(** ** Time values and their ISO rendering *)

Module IsoFacts.

Import Iso.
Local Open Scope Z_scope.

Lemma YearFromDay_spec (d : Z) :
  DayFromYear (YearFromDay d) <= d < DayFromYear (YearFromDay d + 1).
Proof.
  unfold YearFromDay.
  set (y := 1970 + 400 * d / 146097).
  assert (Hy : DayFromYear (y - 1) <= d < DayFromYear (y + 2)).
  { unfold DayFromYear, y. Z.div_mod_to_equations; lia. }
  destruct (Z.ltb_spec d (DayFromYear y)).
  - replace (y - 1 + 1) with y by lia. lia.
  - destruct (Z.leb_spec (DayFromYear (y + 1)) d).
    + replace (y + 1 + 1) with (y + 2) by lia. lia.
    + lia.
Qed.

Lemma DaysInYear_leap (y : Z) :
  DayFromYear (y + 1) - DayFromYear y = 365 + InLeapYear y.
Proof.
  unfold DayFromYear, InLeapYear.
  destruct (Z.eqb_spec (y mod 4) 0) as [H4|H4]; cbn [negb].
  - destruct (Z.eqb_spec (y mod 100) 0) as [H100|H100]; cbn [negb].
    + destruct (Z.eqb_spec (y mod 400) 0) as [H400|H400]; cbn [negb].
      * Z.div_mod_to_equations; lia.
      * Z.div_mod_to_equations; lia.
    + Z.div_mod_to_equations; lia.
  - Z.div_mod_to_equations; lia.
Qed.

Lemma InLeapYear_range (y : Z) : 0 <= InLeapYear y <= 1.
Proof.
  unfold InLeapYear.
  destruct (negb _); [lia|]. destruct (negb _); [lia|].
  destruct (negb _); lia.
Qed.

Lemma DayWithinYear_range (t : Z) :
  0 <= DayWithinYear t < 365 + InLeapYear (YearFromTime t).
Proof.
  unfold DayWithinYear, YearFromTime.
  pose proof (YearFromDay_spec (Day t)).
  pose proof (DaysInYear_leap (YearFromDay (Day t))).
  lia.
Qed.

Lemma MonthFromDay_range (dwy leap : Z) :
  0 <= leap <= 1 -> 0 <= dwy < 365 + leap ->
  0 <= MonthFromDay dwy leap <= 11 /\
  1 <= dwy - monthStart (MonthFromDay dwy leap) leap + 1 <= 31.
Proof.
  intros Hl Hd. unfold MonthFromDay.
  repeat match goal with
         | |- context [?a <? ?b] => destruct (Z.ltb_spec a b)
         end;
    unfold monthStart;
    repeat match goal with
           | |- context [?a <=? ?b] => destruct (Z.leb_spec a b); try lia
           | |- context [?a =? ?b] => destruct (Z.eqb_spec a b); try lia
           end.
Qed.

Lemma time_fields (t : Z) :
  0 <= HourFromTime t < 24 /\ 0 <= MinFromTime t < 60 /\
  0 <= SecFromTime t < 60 /\ 0 <= msFromTime t < 1000 /\
  MakeDate (Day t)
    (MakeTime (HourFromTime t) (MinFromTime t) (SecFromTime t) (msFromTime t))
  = t.
Proof.
  unfold HourFromTime, MinFromTime, SecFromTime, msFromTime, MakeDate,
    MakeTime, TimeWithinDay, Day, msPerDay.
  Z.div_mod_to_equations. lia.
Qed.

Lemma YearFromTime_range (t : Z) :
  inRange t = true -> -271821 <= YearFromTime t <= 275760.
Proof.
  unfold inRange, maxTime. rewrite andb_true_iff, !Z.leb_le. intros Ht.
  pose proof (YearFromDay_spec (Day t)) as H.
  unfold YearFromTime. set (y := YearFromDay (Day t)) in *.
  assert (Hd : -100000000 <= Day t <= 100000000).
  { unfold Day, msPerDay. Z.div_mod_to_equations. lia. }
  unfold DayFromYear in H. Z.div_mod_to_equations. lia.
Qed.

Lemma digit_spec (n : Z) :
  0 <= n <= 9 ->
  Json.isDigit (digit n) = true /\ Z.of_N (digit n) - 48 = n.
Proof.
  intros Hn. unfold Json.isDigit, digit. split.
  - apply andb_true_intro. rewrite !N.leb_le. lia.
  - lia.
Qed.

Lemma pow10_pos (w : nat) : 0 < 10 ^ Z.of_nat w.
Proof. apply Z.pow_pos_nonneg; lia. Qed.

Lemma pow10_succ (w : nat) : 10 ^ Z.of_nat (S w) = 10 * 10 ^ Z.of_nat w.
Proof. rewrite Nat2Z.inj_succ, Z.pow_succ_r; lia. Qed.

Lemma field_pad (w : nat) (n acc : Z) (rest : jsstring) :
  0 <= n < 10 ^ Z.of_nat w ->
  field w acc (pad w n ++ rest) = Some (acc * 10 ^ Z.of_nat w + n, rest).
Proof.
  revert n acc. induction w as [|w IH]; intros n acc Hn.
  - simpl in *. f_equal. f_equal. lia.
  - rewrite pow10_succ in Hn. pose proof (pow10_pos w) as Hp.
    cbn [pad field app].
    set (p := 10 ^ Z.of_nat w) in *.
    assert (Hq : 0 <= n / p <= 9).
    { split; [apply Z.div_pos; lia|].
      assert (n / p < 10) by (apply Z.div_lt_upper_bound; lia). lia. }
    destruct (digit_spec (n / p) Hq) as [-> ->].
    rewrite IH by (apply Z.mod_pos_bound; lia).
    fold p. rewrite pow10_succ. fold p.
    f_equal. f_equal.
    pose proof (Z.div_mod n p ltac:(lia)). nia.
Qed.

Lemma field_pad0 (w : nat) (n : Z) (rest : jsstring) :
  0 <= n < 10 ^ Z.of_nat w ->
  field w 0 (pad w n ++ rest) = Some (n, rest).
Proof. intros Hn. now rewrite field_pad. Qed.

Lemma expect_cons (c : N) (s : jsstring) : expect c (c :: s) = Some s.
Proof. unfold expect. now rewrite N.eqb_refl. Qed.

Lemma dateTimeFields_render (Y M D h m s ms : Z) :
  0 <= M < 100 -> 0 <= D < 100 -> 0 <= h < 100 -> 0 <= m < 100 ->
  0 <= s < 100 -> 0 <= ms < 1000 ->
  dateTimeFields Y
    (45%N :: pad 2 M ++ 45%N :: pad 2 D ++ 84%N :: pad 2 h
     ++ 58%N :: pad 2 m ++ 58%N :: pad 2 s ++ 46%N :: pad 3 ms ++ [90%N])
  = Some (MakeDate (MakeDay Y (M - 1) D) (MakeTime h m s ms)).
Proof.
  intros HM HD Hh Hm Hs Hms. unfold dateTimeFields.
  repeat (rewrite expect_cons; cbn [andThen];
          rewrite field_pad0 by (cbn; lia); cbn [andThen]).
  rewrite expect_cons. reflexivity.
Qed.

Lemma pad_head_digit (w : nat) (n : Z) (rest : jsstring) :
  0 <= n < 10 ^ Z.of_nat (S w) ->
  exists c r, pad (S w) n ++ rest = c :: r /\ (48 <= c <= 57)%N.
Proof.
  intros Hn. rewrite pow10_succ in Hn. pose proof (pow10_pos w) as Hp.
  cbn [pad app]. eexists _, _. split; [reflexivity|].
  assert (0 <= n / 10 ^ Z.of_nat w <= 9).
  { split; [apply Z.div_pos; lia|].
    assert (n / 10 ^ Z.of_nat w < 10) by (apply Z.div_lt_upper_bound; lia).
    lia. }
  unfold digit. lia.
Qed.

Lemma fromFields_year (Y : Z) (tail : jsstring) :
  -1000000 < Y < 1000000 ->
  fromFields (yearString Y ++ tail) = dateTimeFields Y tail.
Proof.
  intros HY. unfold yearString, fromFields.
  destruct (Z.leb_spec 0 Y) as [H0|H0]; cbn [andb].
  - destruct (Z.leb_spec Y 9999) as [H1|H1].
    + destruct (pad_head_digit 3 Y tail ltac:(cbn; lia)) as (c & r & E & Hc).
      rewrite E.
      assert (E1 : (c =? 43)%N = false) by (apply N.eqb_neq; lia).
      assert (E2 : (c =? 45)%N = false) by (apply N.eqb_neq; lia).
      rewrite E1, E2, <- E.
      rewrite field_pad0 by (cbn; lia). cbn [andThen].
      now rewrite Z.mul_1_l.
    + assert (E : (Y <? 0) = false) by (apply Z.ltb_ge; lia).
      rewrite E. cbn [app]. rewrite N.eqb_refl.
      rewrite field_pad0 by (cbn; lia). cbn [andThen].
      now rewrite Z.mul_1_l.
  - assert (E : (Y <? 0) = true) by (apply Z.ltb_lt; lia).
    rewrite E. cbn [app].
    assert (E1 : (45 =? 43)%N = false) by reflexivity.
    rewrite E1, N.eqb_refl.
    rewrite field_pad0 by (cbn; lia). cbn [andThen].
    f_equal. lia.
Qed.

Lemma date_fields (t : Z) :
  0 <= MonthFromTime t <= 11 /\ 1 <= DateFromTime t <= 31 /\
  MakeDay (YearFromTime t) (MonthFromTime t) (DateFromTime t) = Day t.
Proof.
  pose proof (DayWithinYear_range t) as Hd.
  pose proof (InLeapYear_range (YearFromTime t)) as Hl.
  destruct (MonthFromDay_range _ _ Hl Hd) as [Hm Hdate].
  unfold DateFromTime, MakeDay, MonthFromTime.
  repeat split; try lia.
  unfold DayWithinYear. lia.
Qed.

(** Reading the fields of the rendering of a time value gives it back. *)
Lemma fromFields_toISOString (t : Z) :
  inRange t = true -> fromFields (toISOString t) = Some t.
Proof.
  intros Ht. pose proof (YearFromTime_range t Ht) as HY.
  destruct (date_fields t) as (HM & HD & Hday).
  destruct (time_fields t) as (Hh & Hm & Hs & Hms & Htime).
  unfold toISOString.
  rewrite fromFields_year by lia.
  rewrite dateTimeFields_render by lia.
  replace (MonthFromTime t + 1 - 1) with (MonthFromTime t) by lia.
  now rewrite Hday, Htime.
Qed.

Theorem decode_toISOString (t : Z) :
  inRange t = true -> decode (toISOString t) = Some t.
Proof.
  intros Ht. unfold decode.
  now rewrite fromFields_toISOString, Ht, streq_refl.
Qed.

(** A decoded string is the rendering of the time value it gives. *)
Lemma decode_canonical (s : jsstring) (t : Z) :
  decode s = Some t -> inRange t = true /\ toISOString t = s.
Proof.
  unfold decode. destruct (fromFields s) as [u|]; [|discriminate].
  destruct (inRange u) eqn:E; [|discriminate]. cbn [andb].
  destruct (streq (toISOString u) s) eqn:E'; [|discriminate].
  intros H. injection H as <-. split; [exact E|]. now apply streq_eq.
Qed.

End IsoFacts.

(** ** Strings through [JSON.stringify] and [JSON.parse] *)

Module JsonFacts.

Import Json Stringify.

Lemma hexVal_hexDigit (n : N) : (n < 16)%N -> hexVal (hexDigit n) = Some n.
Proof.
  intros Hn. unfold hexVal, hexDigit.
  destruct (N.ltb_spec n 10) as [H|H].
  - assert (E : ((48 <=? 48 + n) && (48 + n <=? 57))%N = true).
    { apply andb_true_intro. rewrite !N.leb_le. lia. }
    rewrite E. f_equal. lia.
  - assert (E : ((48 <=? 87 + n) && (87 + n <=? 57))%N = false).
    { apply andb_false_iff. right. apply N.leb_gt. lia. }
    assert (E' : ((97 <=? 87 + n) && (87 + n <=? 102))%N = true).
    { apply andb_true_intro. rewrite !N.leb_le. lia. }
    rewrite E, E'. f_equal. lia.
Qed.

Lemma hex4_digits (c : N) :
  (c < 65536)%N ->
  hex4 (hexDigit (c / 4096)) (hexDigit ((c / 256) mod 16))
       (hexDigit ((c / 16) mod 16)) (hexDigit (c mod 16)) = Some c.
Proof.
  intros Hc. unfold hex4.
  replace (c / 4096)%N with (c / 16 / 16 / 16)%N
    by (rewrite !N.Div0.div_div; reflexivity).
  replace (c / 256)%N with (c / 16 / 16)%N
    by (rewrite !N.Div0.div_div; reflexivity).
  pose proof (N.div_mod c 16 ltac:(discriminate)) as Ec.
  pose proof (N.mod_lt c 16 ltac:(discriminate)) as Lc.
  remember (c / 16)%N as a eqn:Ha. remember (c mod 16)%N as c0 eqn:Hc0.
  pose proof (N.div_mod a 16 ltac:(discriminate)) as Ea.
  pose proof (N.mod_lt a 16 ltac:(discriminate)) as La.
  remember (a / 16)%N as b eqn:Hb. remember (a mod 16)%N as a0 eqn:Ha0.
  pose proof (N.div_mod b 16 ltac:(discriminate)) as Eb.
  pose proof (N.mod_lt b 16 ltac:(discriminate)) as Lb.
  remember (b / 16)%N as d eqn:Hd. remember (b mod 16)%N as b0 eqn:Hb0.
  clear Ha Hc0 Hb Ha0 Hd Hb0.
  assert (d < 16)%N by lia.
  rewrite !hexVal_hexDigit by assumption.
  f_equal. lia.
Qed.

Lemma stringBody_raw (c : N) (X : jsstring) :
  c <> 34%N -> c <> 92%N -> (32 <= c)%N ->
  stringBody (c :: X) = consUnit c (stringBody X).
Proof.
  intros H1 H2 H3. cbn [stringBody].
  apply N.eqb_neq in H1, H2. rewrite H1, H2.
  assert (E : (c <? 32)%N = false) by (apply N.ltb_ge; lia).
  now rewrite E.
Qed.

Lemma stringBody_escape (c : N) (X : jsstring) :
  (c < 65536)%N ->
  stringBody (unicodeEscape c ++ X) = consUnit c (stringBody X).
Proof.
  intros Hc. unfold unicodeEscape. cbn [app stringBody].
  assert (E1 : (92 =? 34)%N = false) by reflexivity.
  assert (E2 : (92 =? 92)%N = true) by reflexivity.
  assert (E3 : (117 =? 117)%N = true) by reflexivity.
  rewrite E1, E2, E3, hex4_digits by assumption.
  reflexivity.
Qed.

Lemma stringBody_short (e u : N) (X : jsstring) :
  In (e, u) [(34, 34); (92, 92); (98, 8); (102, 12); (110, 10); (114, 13);
             (116, 9)]%N ->
  stringBody (92%N :: e :: X) = consUnit u (stringBody X).
Proof.
  intros H. simpl in H.
  repeat (destruct H as [H|H]; [injection H as <- <-; reflexivity|]).
  contradiction.
Qed.

Lemma stringBody_quoteBody_bounded (n : nat) :
  forall (s rest : jsstring), (Datatypes.length s <= n)%nat ->
  stringBody (quoteBody s ++ 34%N :: rest) = Some (s, rest).
Proof.
  induction n as [|n IH]; intros s rest Hlen.
  - destruct s; [reflexivity|simpl in Hlen; lia].
  - destruct s as [|c r]; [reflexivity|].
    simpl in Hlen. assert (Hr : (Datatypes.length r <= n)%nat) by lia.
    cbn [quoteBody].
    destruct (N.eqb_spec c 8) as [->|N8].
    { cbn [app]. rewrite (stringBody_short 98 8) by (simpl; tauto).
      now rewrite IH. }
    destruct (N.eqb_spec c 9) as [->|N9].
    { cbn [app]. rewrite (stringBody_short 116 9) by (simpl; tauto).
      now rewrite IH. }
    destruct (N.eqb_spec c 10) as [->|N10].
    { cbn [app]. rewrite (stringBody_short 110 10) by (simpl; tauto).
      now rewrite IH. }
    destruct (N.eqb_spec c 12) as [->|N12].
    { cbn [app]. rewrite (stringBody_short 102 12) by (simpl; tauto).
      now rewrite IH. }
    destruct (N.eqb_spec c 13) as [->|N13].
    { cbn [app]. rewrite (stringBody_short 114 13) by (simpl; tauto).
      now rewrite IH. }
    destruct (N.eqb_spec c 34) as [->|N34].
    { cbn [app]. rewrite (stringBody_short 34 34) by (simpl; tauto).
      now rewrite IH. }
    destruct (N.eqb_spec c 92) as [->|N92].
    { cbn [app]. rewrite (stringBody_short 92 92) by (simpl; tauto).
      now rewrite IH. }
    destruct (N.ltb_spec c 32) as [L32|G32].
    { rewrite <- app_assoc, stringBody_escape by lia. now rewrite IH. }
    unfold isHigh, isLow.
    destruct ((55296 <=? c) && (c <=? 56319))%N eqn:Hhigh.
    { apply andb_true_iff in Hhigh as [Hh1 Hh2].
      apply N.leb_le in Hh1, Hh2.
      destruct r as [|d r'].
      - rewrite stringBody_escape by lia. reflexivity.
      - destruct ((56320 <=? d) && (d <=? 57343))%N eqn:Hlow.
        + apply andb_true_iff in Hlow as [Hl1 Hl2].
          apply N.leb_le in Hl1, Hl2.
          cbn [app]. rewrite !stringBody_raw by lia.
          rewrite IH by (simpl in Hr; lia). reflexivity.
        + rewrite <- app_assoc, stringBody_escape by lia. now rewrite IH. }
    destruct ((56320 <=? c) && (c <=? 57343))%N eqn:Hlow.
    { apply andb_true_iff in Hlow as [Hl1 Hl2].
      apply N.leb_le in Hl1, Hl2.
      rewrite <- app_assoc, stringBody_escape by lia. now rewrite IH. }
    cbn [app]. rewrite stringBody_raw by lia. now rewrite IH.
Qed.

(** Reading back a quoted string gives the string, whatever its code
    units. *)
Lemma stringBody_quoteBody (s rest : jsstring) :
  stringBody (quoteBody s ++ 34%N :: rest) = Some (s, rest).
Proof. now apply (stringBody_quoteBody_bounded (Datatypes.length s)). Qed.

Lemma skipWs_nonws (c : N) (r : jsstring) :
  isWs c = false -> skipWs (c :: r) = c :: r.
Proof. intros H. cbn [skipWs]. now rewrite H. Qed.

Lemma key_text (name : string) (X : jsstring) :
  key name ++ X = 34%N :: js name ++ 34%N :: 58%N :: X.
Proof. unfold key. cbn [app]. now rewrite <- app_assoc. Qed.

Lemma quote_text (s X : jsstring) :
  quote s ++ X = 34%N :: quoteBody s ++ 34%N :: X.
Proof. unfold quote. cbn [app]. now rewrite <- app_assoc. Qed.

Section Loops.

Variable pv : jsstring -> option (Value * jsstring).

Lemma members_comma (n : nat) (name : string) (X Y : jsstring) (v : Value)
    (acc : list (jsstring * Value)) :
  plainName name ->
  pv X = Some (v, 44%N :: Y) ->
  members pv (S n) (34%N :: js name ++ 34%N :: 58%N :: X) acc
  = members pv n Y (setProp acc (js name) v).
Proof.
  intros Hname Hpv. cbn [members].
  rewrite skipWs_nonws by reflexivity. rewrite N.eqb_refl, Hname.
  rewrite skipWs_nonws by reflexivity. rewrite N.eqb_refl, Hpv.
  rewrite skipWs_nonws by reflexivity. now rewrite N.eqb_refl.
Qed.

Lemma members_close (n : nat) (name : string) (X Y : jsstring) (v : Value)
    (acc : list (jsstring * Value)) :
  plainName name ->
  pv X = Some (v, 125%N :: Y) ->
  members pv (S n) (34%N :: js name ++ 34%N :: 58%N :: X) acc
  = Some (VObject (setProp acc (js name) v), Y).
Proof.
  intros Hname Hpv. cbn [members].
  rewrite skipWs_nonws by reflexivity. rewrite N.eqb_refl, Hname.
  rewrite skipWs_nonws by reflexivity. rewrite N.eqb_refl, Hpv.
  rewrite skipWs_nonws by reflexivity.
  change ((125 =? 44)%N) with false. cbn iota. now rewrite N.eqb_refl.
Qed.

Variable A : Type.
Variable item : A -> jsstring.
Variable val : A -> Value.

Hypothesis pv_item :
  forall x rest, pv (item x ++ rest) = Some (val x, rest).

Lemma elements_items (xs : list A) :
  forall (x : A) (acc : list Value) (n : nat) (rest : jsstring),
  (Datatypes.length xs < n)%nat ->
  elements pv n (commaSep (map item (x :: xs)) ++ 93%N :: rest) acc
  = Some (VArray (acc ++ map val (x :: xs)) [], rest).
Proof.
  induction xs as [|y xs IH]; intros x acc n rest Hn.
  - destruct n as [|n]; [simpl in Hn; lia|].
    cbn [map commaSep elements]. rewrite pv_item.
    rewrite skipWs_nonws by reflexivity.
    change ((93 =? 44)%N) with false. cbn iota. now rewrite N.eqb_refl.
  - destruct n as [|n]; [simpl in Hn; lia|].
    change (commaSep (map item (x :: y :: xs)))
      with (item x ++ 44%N :: commaSep (map item (y :: xs))).
    rewrite <- app_assoc. cbn [app elements]. rewrite pv_item.
    rewrite skipWs_nonws by reflexivity. rewrite N.eqb_refl.
    rewrite IH by (simpl in Hn; lia).
    cbn [map]. now rewrite <- app_assoc.
Qed.

Hypothesis item_brace : forall x, exists t, item x = 123%N :: t.

Lemma commaSep_length (xs : list A) :
  (Datatypes.length xs <= Datatypes.length (commaSep (map item xs)))%nat.
Proof.
  induction xs as [|x [|y xs] IH].
  - simpl; lia.
  - destruct (item_brace x) as (t & E). simpl. rewrite E. simpl. lia.
  - change (commaSep (map item (x :: y :: xs)))
      with (item x ++ 44%N :: commaSep (map item (y :: xs))).
    rewrite length_app. cbn [Datatypes.length] in *. lia.
Qed.

Lemma commaSep_head (x : A) (xs : list A) :
  exists u, commaSep (map item (x :: xs)) = 123%N :: u.
Proof.
  destruct (item_brace x) as (t & E).
  destruct xs as [|y xs]; cbn [map commaSep]; rewrite E; cbn [app]; eauto.
Qed.

Lemma arrayBody_items (xs : list A) (rest : jsstring) :
  arrayBody pv (commaSep (map item xs) ++ 93%N :: rest)
  = Some (VArray (map val xs) [], rest).
Proof.
  destruct xs as [|x xs]; [reflexivity|].
  destruct (commaSep_head x xs) as (u & Eu).
  pose proof (commaSep_length (x :: xs)) as Hlen.
  set (T := commaSep (map item (x :: xs)) ++ 93%N :: rest).
  assert (Hs : skipWs T = 123%N :: u ++ 93%N :: rest).
  { unfold T. rewrite Eu. reflexivity. }
  unfold arrayBody. rewrite Hs.
  change ((123 =? 93)%N) with false. cbn iota.
  unfold T at 2. rewrite elements_items; [reflexivity|].
  unfold T. rewrite length_app. cbn [Datatypes.length] in *. lia.
Qed.

End Loops.

Lemma objectBody_members (pv : jsstring -> option (Value * jsstring))
    (name : string) (X : jsstring) :
  objectBody pv (34%N :: js name ++ 34%N :: 58%N :: X)
  = members pv (Datatypes.length (34%N :: js name ++ 34%N :: 58%N :: X))
      (34%N :: js name ++ 34%N :: 58%N :: X) [].
Proof. reflexivity. Qed.

Lemma value_string (d : nat) (s rest : jsstring) :
  value (S d) (quote s ++ rest) = Some (VString s, rest).
Proof.
  rewrite quote_text. cbn [value].
  rewrite skipWs_nonws by reflexivity.
  change ((34 =? 123)%N) with false. change ((34 =? 91)%N) with false.
  cbn iota. rewrite N.eqb_refl.
  now rewrite stringBody_quoteBody.
Qed.

Lemma value_null (d : nat) (rest : jsstring) :
  value (S d) (js "null" ++ rest) = Some (VNull, rest).
Proof. reflexivity. Qed.

Lemma value_date (d : nat) (dt : Date) (rest : jsstring) :
  value (S d) (dateText dt ++ rest) = Some (storedDate dt, rest).
Proof.
  destruct dt as [t|]; [apply value_string|apply value_null].
Qed.

Lemma value_object (d : nat) (r : jsstring) :
  value (S d) (123%N :: r) = objectBody (value d) r.
Proof. reflexivity. Qed.

Lemma value_array (d : nat) (r : jsstring) :
  value (S d) (91%N :: r) = arrayBody (value d) r.
Proof. reflexivity. Qed.

Lemma plain_id : plainName "id".
Proof. intros X; reflexivity. Qed.

Lemma plain_title : plainName "title".
Proof. intros X; reflexivity. Qed.

Lemma plain_description : plainName "description".
Proof. intros X; reflexivity. Qed.

Lemma plain_createdAt : plainName "createdAt".
Proof. intros X; reflexivity. Qed.

Lemma plain_cards : plainName "cards".
Proof. intros X; reflexivity. Qed.

Lemma plain_lists : plainName "lists".
Proof. intros X; reflexivity. Qed.

Lemma key_length (name : string) (X : jsstring) :
  (3 + Datatypes.length X
   <= Datatypes.length (34%N :: js name ++ 34%N :: 58%N :: X))%nat.
Proof. cbn [Datatypes.length]. rewrite length_app. cbn [Datatypes.length]. lia. Qed.

Lemma quote_length (s X : jsstring) :
  (1 <= Datatypes.length (quote s ++ X))%nat.
Proof. rewrite quote_text. cbn [Datatypes.length]. lia. Qed.

(** Brings a text to the form head :: tail, appends to the right. *)
Ltac flatten_text :=
  repeat (rewrite <- app_assoc || rewrite <- app_comm_cons);
  rewrite ?app_nil_l; rewrite ?key_text.

Ltac member_comma H :=
  erewrite members_comma; [| solve [auto using plain_id, plain_title,
    plain_description, plain_createdAt, plain_cards, plain_lists] | apply H].

Ltac member_close H :=
  erewrite members_close; [| solve [auto using plain_id, plain_title,
    plain_description, plain_createdAt, plain_cards, plain_lists] | apply H].

Lemma value_card (d : nat) (c : Card) (rest : jsstring) :
  value (S (S d)) (cardText c ++ rest) = Some (cardJson c, rest).
Proof.
  unfold cardText, cardJson.
  destruct (card_description c) as [desc|]; flatten_text;
    rewrite value_object, objectBody_members;
    match goal with
    | |- members _ (Datatypes.length (_ :: _ ++ _ :: _ :: ?X)) _ _ = _ =>
        pose proof (key_length "id" X) as Hlen;
        assert (Hx : (1 <= Datatypes.length X)%nat) by apply quote_length
    end;
    match type of Hlen with
    | (_ <= ?len)%nat => destruct len as [|[|[|[|k]]]]; try lia
    end.
  - member_comma value_string. member_comma value_string.
    member_comma value_string. member_close value_date.
    reflexivity.
  - member_comma value_string. member_comma value_string.
    member_close value_date.
    reflexivity.
Qed.

Lemma cardText_brace (c : Card) : exists t, cardText c = 123%N :: t.
Proof. unfold cardText. eauto. Qed.

Lemma value_cards (d : nat) (cards : list Card) (rest : jsstring) :
  value (S (S (S d))) (arrayText (map cardText cards) ++ rest)
  = Some (VArray (map cardJson cards) [], rest).
Proof.
  unfold arrayText. flatten_text. rewrite value_array.
  apply arrayBody_items; [apply value_card|apply cardText_brace].
Qed.

Lemma value_list (d : nat) (l : List) (rest : jsstring) :
  value (S (S (S (S d)))) (listText l ++ rest) = Some (listJson l, rest).
Proof.
  unfold listText, listJson. flatten_text.
  rewrite value_object, objectBody_members.
  match goal with
  | |- members _ (Datatypes.length (_ :: _ ++ _ :: _ :: ?X)) _ _ = _ =>
      pose proof (key_length "id" X) as Hlen;
      assert (Hx : (1 <= Datatypes.length X)%nat) by apply quote_length
  end.
  match type of Hlen with
  | (_ <= ?len)%nat => destruct len as [|[|[|[|k]]]]; try lia
  end.
  member_comma value_string. member_comma value_string.
  member_close value_cards.
  reflexivity.
Qed.

Lemma listText_brace (l : List) : exists t, listText l = 123%N :: t.
Proof. unfold listText. eauto. Qed.

Lemma value_lists (d : nat) (lists : list List) (rest : jsstring) :
  value (S (S (S (S (S d))))) (arrayText (map listText lists) ++ rest)
  = Some (VArray (map listJson lists) [], rest).
Proof.
  unfold arrayText. flatten_text. rewrite value_array.
  apply arrayBody_items; [apply value_list|apply listText_brace].
Qed.

Lemma value_board (d : nat) (b : Board) (rest : jsstring) :
  value (S (S (S (S (S (S d)))))) (boardText b ++ rest)
  = Some (boardJson b, rest).
Proof.
  unfold boardText, boardJson. flatten_text.
  rewrite value_object, objectBody_members.
  match goal with
  | |- members _ (Datatypes.length (_ :: _ ++ _ :: _ :: ?X)) _ _ = _ =>
      pose proof (key_length "id" X) as Hlen;
      assert (Hx : (1 <= Datatypes.length X)%nat) by apply quote_length
  end.
  match type of Hlen with
  | (_ <= ?len)%nat => destruct len as [|[|[|[|k]]]]; try lia
  end.
  member_comma value_string. member_comma value_string.
  member_close value_lists.
  reflexivity.
Qed.

Lemma boardText_length (b : Board) :
  (6 <= Datatypes.length (boardText b))%nat.
Proof.
  unfold boardText. cbn [Datatypes.length]. rewrite !length_app.
  unfold key. cbn [Datatypes.length]. rewrite !length_app.
  unfold quote. cbn [Datatypes.length]. lia.
Qed.

(** [JSON.parse] reads the text of a board back as the tree written. *)
Theorem parse_boardText (b : Board) :
  parse (boardText b) = Some (boardJson b).
Proof.
  unfold parse. pose proof (boardText_length b) as Hlen.
  destruct (Datatypes.length (boardText b)) as [|[|[|[|[|[|n]]]]]] eqn:E;
    try lia.
  rewrite <- (List.app_nil_r (boardText b)).
  now rewrite value_board.
Qed.

End JsonFacts.

(** ** The bounds of the parser are never reached

    Every value takes a character at least, so that neither the bound on
    the nesting nor the counters of the two loops can run out on a text
    they were set from: more depth changes nothing. *)

Module JsonBounds.

Import Json.

Lemma skipWs_length (s : jsstring) : (len (skipWs s) <= len s)%nat.
Proof.
  induction s as [|c r IH]; simpl; [lia|].
  destruct (isWs c); simpl; lia.
Qed.

Lemma skipWs_cons_length (s r : jsstring) (c : N) :
  skipWs s = c :: r -> (len r < len s)%nat.
Proof.
  intros H. pose proof (skipWs_length s) as Hl. rewrite H in Hl.
  simpl in Hl. lia.
Qed.

Lemma stringBody_shrinks_bounded (n : nat) :
  forall s str r, (len s <= n)%nat ->
  stringBody s = Some (str, r) -> (len r < len s)%nat.
Proof.
  induction n as [|n IH]; intros s str r Hn H.
  - destruct s; [discriminate|simpl in Hn; lia].
  - destruct s as [|c s1]; [discriminate|].
    simpl in Hn. cbn [stringBody] in H.
    destruct (c =? 34)%N.
    { injection H as _ <-. simpl; lia. }
    destruct (c =? 92)%N.
    { destruct s1 as [|e s2]; [discriminate|].
      destruct (e =? 117)%N.
      - destruct s2 as [|a [|b [|c' [|d s3]]]]; try discriminate.
        destruct (hex4 a b c' d); [|discriminate].
        destruct (stringBody s3) as [[str' r']|] eqn:E; [|discriminate].
        injection H as _ <-.
        apply IH in E; simpl in *; lia.
      - match type of H with
        | context [match ?x with Some _ => _ | None => None end] =>
            destruct x; [|discriminate]
        end.
        destruct (stringBody s2) as [[str' r']|] eqn:E; [|discriminate].
        injection H as _ <-.
        apply IH in E; simpl in *; lia. }
    destruct (c <? 32)%N; [discriminate|].
    destruct (stringBody s1) as [[str' r']|] eqn:E; [|discriminate].
    injection H as _ <-.
    apply IH in E; simpl in *; lia.
Qed.

Lemma stringBody_shrinks (s str r : jsstring) :
  stringBody s = Some (str, r) -> (len r < len s)%nat.
Proof. now apply (stringBody_shrinks_bounded (len s)). Qed.

Lemma spanDigits_length (s ds r : jsstring) :
  spanDigits s = (ds, r) -> len s = (len ds + len r)%nat.
Proof.
  revert ds r. induction s as [|c s IH]; intros ds r H; simpl in H.
  - injection H as <- <-. reflexivity.
  - destruct (isDigit c).
    + destruct (spanDigits s) as [ds' r'] eqn:E.
      injection H as <- <-. simpl. rewrite (IH _ _ eq_refl). lia.
    + injection H as <- <-. reflexivity.
Qed.

Lemma stripPrefix_length (w s r : jsstring) :
  stripPrefix w s = Some r -> (len r <= len s)%nat.
Proof.
  revert s. induction w as [|a w IH]; intros s H; simpl in H.
  - injection H as <-. lia.
  - destruct s as [|c s]; [discriminate|].
    destruct (a =? c)%N; [|discriminate].
    apply IH in H. simpl. lia.
Qed.

Lemma signPart_length (s sign r : jsstring) :
  signPart s = (sign, r) -> (len r <= len s)%nat.
Proof.
  unfold signPart. destruct s as [|c r0].
  - intros H; injection H as _ <-. lia.
  - destruct (c =? 45)%N; intros H; injection H as _ <-; simpl; lia.
Qed.

Lemma fraction_length (s frac r : jsstring) :
  fraction s = Some (frac, r) -> (len r <= len s)%nat.
Proof.
  unfold fraction. destruct s as [|c r0].
  - intros H; injection H as _ <-. lia.
  - destruct (c =? 46)%N.
    + destruct (spanDigits r0) as [ds rest] eqn:E.
      apply spanDigits_length in E.
      destruct ds; [discriminate|].
      intros H; injection H as _ <-. simpl in *. lia.
    + intros H; injection H as _ <-. lia.
Qed.

Lemma exponent_length (s ex r : jsstring) :
  exponent s = Some (ex, r) -> (len r <= len s)%nat.
Proof.
  unfold exponent. destruct s as [|c r0].
  - intros H; injection H as _ <-. lia.
  - destruct ((c =? 101) || (c =? 69))%N.
    + set (p := match r0 with
                | g :: r' =>
                    if ((g =? 43) || (g =? 45))%N then ([g], r') else ([], r0)
                | [] => ([], r0)
                end).
      assert (Hp : (len (snd p) <= len r0)%nat).
      { unfold p. destruct r0 as [|g r']; simpl; [lia|].
        destruct ((g =? 43) || (g =? 45))%N; simpl; lia. }
      destruct p as [esign r1]. simpl in Hp.
      destruct (spanDigits r1) as [ds rest] eqn:E.
      apply spanDigits_length in E.
      destruct ds; [discriminate|].
      intros H; injection H as _ <-. simpl in *. lia.
    + intros H; injection H as _ <-. lia.
Qed.

Lemma numberLiteral_shrinks (s lit r : jsstring) :
  numberLiteral s = Some (lit, r) -> (len r < len s)%nat.
Proof.
  unfold numberLiteral.
  destruct (signPart s) as [sign s1] eqn:E0. apply signPart_length in E0.
  destruct (spanDigits s1) as [int s2] eqn:E1.
  apply spanDigits_length in E1.
  destruct int as [|d more]; [discriminate|]. simpl in E1.
  destruct (negb _); [discriminate|].
  destruct (fraction s2) as [[frac s3]|] eqn:E2; [|discriminate].
  apply fraction_length in E2.
  destruct (exponent s3) as [[ex s4]|] eqn:E3; [|discriminate].
  apply exponent_length in E3.
  intros H. injection H as _ <-. lia.
Qed.

Section Loops.

Variable pv : jsstring -> option (Value * jsstring).
Hypothesis pv_shrinks : shrinks pv.

Lemma elements_shrinks (n : nat) :
  forall s acc v r, elements pv n s acc = Some (v, r) -> (len r < len s)%nat.
Proof.
  induction n as [|n IH]; intros s acc v r H; [discriminate|].
  cbn [elements] in H.
  destruct (pv s) as [[w r1]|] eqn:E; [|discriminate].
  apply pv_shrinks in E.
  destruct (skipWs r1) as [|c r2] eqn:E1; [discriminate|].
  apply skipWs_cons_length in E1.
  destruct (c =? 44)%N.
  - apply IH in H. lia.
  - destruct (c =? 93)%N; [|discriminate]. injection H as _ <-. lia.
Qed.

Lemma members_shrinks (n : nat) :
  forall s acc v r, members pv n s acc = Some (v, r) -> (len r < len s)%nat.
Proof.
  induction n as [|n IH]; intros s acc v r H; [discriminate|].
  cbn [members] in H.
  destruct (skipWs s) as [|q r0] eqn:E0; [discriminate|].
  apply skipWs_cons_length in E0.
  destruct (q =? 34)%N; [|discriminate].
  destruct (stringBody r0) as [[key r1]|] eqn:E1; [|discriminate].
  apply stringBody_shrinks in E1.
  destruct (skipWs r1) as [|c r2] eqn:E2; [discriminate|].
  apply skipWs_cons_length in E2.
  destruct (c =? 58)%N; [|discriminate].
  destruct (pv r2) as [[w r3]|] eqn:E3; [|discriminate].
  apply pv_shrinks in E3.
  destruct (skipWs r3) as [|d r4] eqn:E4; [discriminate|].
  apply skipWs_cons_length in E4.
  destruct (d =? 44)%N.
  - apply IH in H. lia.
  - destruct (d =? 125)%N; [|discriminate]. injection H as _ <-. lia.
Qed.

Lemma arrayBody_shrinks (s : jsstring) (v : Value) (r : jsstring) :
  arrayBody pv s = Some (v, r) -> (len r < len s)%nat.
Proof.
  unfold arrayBody. destruct (skipWs s) as [|d r'] eqn:E; [discriminate|].
  apply skipWs_cons_length in E.
  destruct (d =? 93)%N.
  - intros H; injection H as _ <-. lia.
  - apply elements_shrinks.
Qed.

Lemma objectBody_shrinks (s : jsstring) (v : Value) (r : jsstring) :
  objectBody pv s = Some (v, r) -> (len r < len s)%nat.
Proof.
  unfold objectBody. destruct (skipWs s) as [|d r'] eqn:E; [discriminate|].
  apply skipWs_cons_length in E.
  destruct (d =? 125)%N.
  - intros H; injection H as _ <-. lia.
  - apply members_shrinks.
Qed.

End Loops.

Lemma value_shrinks (depth : nat) : shrinks (value depth).
Proof.
  induction depth as [|d IH]; intros s v r H; [discriminate|].
  cbn [value] in H.
  destruct (skipWs s) as [|c r0] eqn:E; [discriminate|].
  pose proof (skipWs_length s) as Hs. rewrite E in Hs.
  unfold len in *. cbn [Datatypes.length] in Hs.
  destruct (c =? 123)%N.
  { apply (objectBody_shrinks _ IH) in H. unfold len in H. lia. }
  destruct (c =? 91)%N.
  { apply (arrayBody_shrinks _ IH) in H. unfold len in H. lia. }
  destruct (c =? 34)%N.
  { destruct (stringBody r0) as [[str rest]|] eqn:E1; [|discriminate].
    apply stringBody_shrinks in E1. injection H as _ <-.
    unfold len in E1. lia. }
  destruct (c =? 116)%N.
  { destruct (stripPrefix _ r0) as [rest|] eqn:E1; [|discriminate].
    apply stripPrefix_length in E1. injection H as _ <-.
    unfold len in E1. lia. }
  destruct (c =? 102)%N.
  { destruct (stripPrefix _ r0) as [rest|] eqn:E1; [|discriminate].
    apply stripPrefix_length in E1. injection H as _ <-.
    unfold len in E1. lia. }
  destruct (c =? 110)%N.
  { destruct (stripPrefix _ r0) as [rest|] eqn:E1; [|discriminate].
    apply stripPrefix_length in E1. injection H as _ <-.
    unfold len in E1. lia. }
  destruct (numberLiteral (c :: r0)) as [[lit rest]|] eqn:E1; [|discriminate].
  apply numberLiteral_shrinks in E1. injection H as _ <-.
  unfold len in E1. cbn [Datatypes.length] in E1. lia.
Qed.

Section Agreement.

Variables pv1 pv2 : jsstring -> option (Value * jsstring).
Variable bound : nat.
Hypothesis agree : forall s, (len s < bound)%nat -> pv1 s = pv2 s.
Hypothesis pv1_shrinks : shrinks pv1.

Lemma pv1_empty : pv1 [] = None.
Proof.
  destruct (pv1 []) as [[v r]|] eqn:E; [|reflexivity].
  apply pv1_shrinks in E. unfold len in E. simpl in E. lia.
Qed.

Lemma elements_agree (n1 : nat) :
  forall n2 s acc, (len s < bound)%nat -> (len s <= n1)%nat ->
  (len s <= n2)%nat ->
  elements pv1 n1 s acc = elements pv2 n2 s acc.
Proof.
  induction n1 as [|n1 IH]; intros n2 s acc Hb H1 H2.
  - destruct s; [|unfold len in H1; simpl in H1; lia].
    destruct n2; [reflexivity|]. cbn [elements].
    now rewrite <- agree, pv1_empty by exact Hb.
  - destruct n2 as [|n2].
    + destruct s; [|unfold len in H2; simpl in H2; lia].
      cbn [elements]. now rewrite pv1_empty.
    + cbn [elements]. rewrite <- agree by exact Hb.
      destruct (pv1 s) as [[v r]|] eqn:E; [|reflexivity].
      apply pv1_shrinks in E.
      destruct (skipWs r) as [|c r'] eqn:E1; [reflexivity|].
      apply skipWs_cons_length in E1.
      destruct (c =? 44)%N; [|reflexivity].
      apply IH; lia.
Qed.

Lemma members_agree (n1 : nat) :
  forall n2 s acc, (len s < bound)%nat -> (len s <= n1)%nat ->
  (len s <= n2)%nat ->
  members pv1 n1 s acc = members pv2 n2 s acc.
Proof.
  induction n1 as [|n1 IH]; intros n2 s acc Hb H1 H2.
  - destruct s; [|unfold len in H1; simpl in H1; lia].
    destruct n2; reflexivity.
  - destruct n2 as [|n2].
    + destruct s; [|unfold len in H2; simpl in H2; lia]. reflexivity.
    + cbn [members].
      destruct (skipWs s) as [|q r0] eqn:E0; [reflexivity|].
      apply skipWs_cons_length in E0.
      destruct (q =? 34)%N; [|reflexivity].
      destruct (stringBody r0) as [[key r1]|] eqn:E1; [|reflexivity].
      apply stringBody_shrinks in E1.
      destruct (skipWs r1) as [|c r2] eqn:E2; [reflexivity|].
      apply skipWs_cons_length in E2.
      destruct (c =? 58)%N; [|reflexivity].
      rewrite <- agree by lia.
      destruct (pv1 r2) as [[w r3]|] eqn:E3; [|reflexivity].
      apply pv1_shrinks in E3.
      destruct (skipWs r3) as [|d r4] eqn:E4; [reflexivity|].
      apply skipWs_cons_length in E4.
      destruct (d =? 44)%N; [|reflexivity].
      apply IH; lia.
Qed.

Lemma arrayBody_agree (s : jsstring) :
  (len s < bound)%nat -> arrayBody pv1 s = arrayBody pv2 s.
Proof.
  intros Hb. unfold arrayBody. destruct (skipWs s) as [|d r']; [reflexivity|].
  destruct (d =? 93)%N; [reflexivity|].
  apply elements_agree; unfold len in *; lia.
Qed.

Lemma objectBody_agree (s : jsstring) :
  (len s < bound)%nat -> objectBody pv1 s = objectBody pv2 s.
Proof.
  intros Hb. unfold objectBody. destruct (skipWs s) as [|d r']; [reflexivity|].
  destruct (d =? 125)%N; [reflexivity|].
  apply members_agree; unfold len in *; lia.
Qed.

End Agreement.

(** Once the depth exceeds the length of the text, it plays no part. *)
Lemma value_depth_irrelevant (d1 : nat) :
  forall d2 s, (len s < d1)%nat -> (len s < d2)%nat ->
  value d1 s = value d2 s.
Proof.
  induction d1 as [|d1 IH]; intros d2 s H1 H2; [lia|].
  destruct d2 as [|d2]; [lia|]. cbn [value].
  destruct (skipWs s) as [|c r] eqn:E; [reflexivity|].
  apply skipWs_cons_length in E.
  assert (Hagree : forall s', (len s' < S (len r))%nat ->
                     value d1 s' = value d2 s')
    by (intros s' Hs'; apply IH; lia).
  destruct (c =? 123)%N.
  { apply (objectBody_agree _ _ (S (len r)) Hagree (value_shrinks d1)). lia. }
  destruct (c =? 91)%N.
  { apply (arrayBody_agree _ _ (S (len r)) Hagree (value_shrinks d1)). lia. }
  reflexivity.
Qed.

(** [Json.parse] gives what any larger bound on the nesting gives: the
    bound it uses never makes it reject a text. *)
Theorem parse_depth_irrelevant (text : jsstring) (depth : nat) :
  (len text < depth)%nat ->
  parse text
  = match value depth text with
    | Some (v, rest) =>
        match skipWs rest with
        | [] => Some v
        | _ :: _ => None
        end
    | None => None
    end.
Proof.
  intros H. unfold parse.
  rewrite (value_depth_irrelevant (S (Datatypes.length text)) depth text);
    [reflexivity| |exact H].
  unfold len. lia.
Qed.

End JsonBounds.

(** ** Loading what was saved *)

Section LoadFacts.

Variable dateFallback : Value -> Outcome Date.

Lemma newDate_stored (d : Date) :
  (forall t, d = Some t -> Iso.inRange t = true) ->
  newDate dateFallback (Some (storedDate d)) = Returns (reloadedDate d).
Proof.
  intros Hd. destruct d as [t|]; [|reflexivity].
  cbn [storedDate newDate].
  now rewrite IsoFacts.decode_toISOString by auto.
Qed.

Lemma forEach_map (A : Type) (f : Value -> Outcome Value)
    (g : A -> Value) (h : A -> Value) (xs : list A) :
  (forall x, In x xs -> f (g x) = Returns (h x)) ->
  forEach f (map g xs) = Returns (map h xs).
Proof.
  induction xs as [|x xs IH]; intros H; [reflexivity|].
  cbn [map forEach]. rewrite H by (now left). cbn [bind].
  rewrite IH by (intros y Hy; apply H; now right). reflexivity.
Qed.

Lemma reviveCard_cardJson (c : Card) :
  (forall t, card_createdAt c = Some t -> Iso.inRange t = true) ->
  reviveCard dateFallback (cardJson c) = Returns (cardValue (reloadedCard c)).
Proof.
  intros Hc. unfold cardJson, cardValue, reloadedCard; cbn [card_id card_title
    card_description card_createdAt].
  destruct (card_description c) as [desc|].
  - change (reviveCard dateFallback _)
      with (d <- newDate dateFallback (Some (storedDate (card_createdAt c))) ;;
            Returns (VObject
              [ (js "id", VString (card_id c));
                (js "title", VString (card_title c));
                (js "description", VString desc);
                (js "createdAt", VDate d) ])).
    now rewrite newDate_stored.
  - change (reviveCard dateFallback _)
      with (d <- newDate dateFallback (Some (storedDate (card_createdAt c))) ;;
            Returns (VObject
              [ (js "id", VString (card_id c));
                (js "title", VString (card_title c));
                (js "createdAt", VDate d) ])).
    now rewrite newDate_stored.
Qed.

Lemma reviveList_listJson (l : List) :
  (forall c t, In c (list_cards l) -> card_createdAt c = Some t ->
               Iso.inRange t = true) ->
  reviveList dateFallback (listJson l) = Returns (listValue (reloadedList l)).
Proof.
  intros Hl. unfold listJson.
  change (reviveList dateFallback _)
    with (cards' <- (items' <- forEach (reviveCard dateFallback)
                                 (map cardJson (list_cards l)) ;;
                     Returns (VArray items' [])) ;;
          Returns (VObject
            [ (js "id", VString (list_id l));
              (js "title", VString (list_title l));
              (js "cards", cards') ])).
  rewrite (forEach_map _ _ _ (fun c => cardValue (reloadedCard c))).
  - unfold listValue, reloadedList. cbn [bind with_cards list_id list_title
      list_cards]. now rewrite map_map.
  - intros c Hc. apply reviveCard_cardJson. eauto.
Qed.

Lemma save_truthy (b : Board) : JsString.truthy (save b) = true.
Proof. reflexivity. Qed.

(** Loading the text saved for a board restores the board, an invalid
    creation date replaced by the epoch. *)
Lemma load_save (b : Board) :
  datesInRange b ->
  load dateFallback (Some (save b)) = Returns (Some (boardValue (reloaded b))).
Proof.
  intros Hb. unfold load. rewrite save_truthy. cbn [negb].
  unfold save. rewrite JsonFacts.parse_boardText. unfold boardJson.
  match goal with
  | |- ?lhs = _ =>
      change lhs
        with (lists' <- (items' <- forEach (reviveList dateFallback)
                                     (map listJson (board_lists b)) ;;
                         Returns (VArray items' [])) ;;
              Returns (Some (VObject
                [ (js "id", VString (board_id b));
                  (js "title", VString (board_title b));
                  (js "lists", lists') ])))
  end.
  rewrite (forEach_map _ _ _ (fun l => listValue (reloadedList l))).
  - cbn [bind]. unfold boardValue, reloaded.
    cbn [with_lists board_id board_title board_lists].
    rewrite map_map. reflexivity.
  - intros l Hl. apply reviveList_listJson. intros c t Hc Ht.
    now apply (Hb l c t).
Qed.

End LoadFacts.

Lemma reloaded_valid (b : Board) : datesValid b -> reloaded b = b.
Proof.
  intros Hb. destruct b as [i t lists]. unfold reloaded, with_lists.
  cbn [board_id board_title board_lists] in *. f_equal.
  rewrite <- (map_id lists) at 2. apply map_ext_in. intros l Hl.
  destruct l as [li lt cards]. unfold reloadedList, with_cards.
  cbn [list_id list_title list_cards]. f_equal.
  rewrite <- (map_id cards) at 2. apply map_ext_in. intros c Hc.
  destruct (Hb _ c Hl Hc) as (u & Hu & _).
  destruct c as [ci ct cd cc]. unfold reloadedCard.
  cbn [card_id card_title card_description card_createdAt] in *.
  now subst cc.
Qed.

Lemma datesValid_inRange (b : Board) : datesValid b -> datesInRange b.
Proof.
  intros Hb l c t Hl Hc Ht. destruct (Hb l c Hl Hc) as (u & Hu & Hr).
  congruence.
Qed.

Lemma optionList_map (A : Type) (f : Value -> option A) (g : A -> Value)
    (xs : list A) :
  (forall x, f (g x) = Some x) ->
  optionList (map f (map g xs)) = Some xs.
Proof.
  intros H. induction xs as [|x xs IH]; [reflexivity|].
  cbn [map optionList fold_right]. fold (optionList (map f (map g xs))).
  now rewrite H, IH.
Qed.

Lemma asCard_cardValue (c : Card) : asCard (cardValue c) = Some c.
Proof. destruct c as [i t [d|] dt]; reflexivity. Qed.

Lemma asList_listValue (l : List) : asList (listValue l) = Some l.
Proof.
  destruct l as [i t cards]. unfold listValue.
  cbn [list_id list_title list_cards].
  change (asList _)
    with (match optionList (map asCard (map cardValue cards)) with
          | Some cs => Some (mkList i t cs)
          | None => None
          end).
  now rewrite (optionList_map _ _ _ _ asCard_cardValue).
Qed.

(** The value of a board reads as that board. *)
Lemma asBoard_boardValue (b : Board) : asBoard (boardValue b) = Some b.
Proof.
  destruct b as [i t lists]. unfold boardValue.
  cbn [board_id board_title board_lists].
  change (asBoard _)
    with (match optionList (map asList (map listValue lists)) with
          | Some ls => Some (mkBoard i t ls)
          | None => None
          end).
  now rewrite (optionList_map _ _ _ _ asList_listValue).
Qed.

(** ** Persistence *)

Lemma load_not_json (dateFallback : Value -> Outcome Date) (text : jsstring) :
  text <> [] -> Json.parse text = None ->
  load dateFallback (Some text) = Throws SyntaxError.
Proof.
  intros Hne Hp. unfold load. destruct text as [|c r]; [contradiction|].
  cbn [JsString.truthy negb]. now rewrite Hp.
Qed.

Lemma load_no_lists (dateFallback : Value -> Outcome Date)
    (text : jsstring) (v : Value) :
  text <> [] -> Json.parse text = Some v -> hasListsArray v = false ->
  load dateFallback (Some text) = Throws TypeError.
Proof.
  intros Hne Hp Hv. unfold load. destruct text as [|c r]; [contradiction|].
  cbn [JsString.truthy negb]. rewrite Hp.
  destruct v as [| | | | |items own|props]; try reflexivity;
    cbn [hasListsArray getMember bind] in *.
  - destruct (Json.getProp own (js "lists")) as [[]|];
      try reflexivity; discriminate.
  - destruct (Json.getProp props (js "lists")) as [[]|];
      try reflexivity; discriminate.
Qed.

(** C4 (as amended). For every board whose cards all have a valid
    creation date, loading the saved text gives the value of that very
    board: identifiers, titles, lists, cards, optional descriptions and
    creation dates (a [Date] has millisecond resolution, nothing is cut
    off), and that value reads as the board. *)
Theorem load_save_valid_dates (dateFallback : Value -> Outcome Date)
    (b : Board) :
  datesValid b ->
  load dateFallback (Some (save b)) = Returns (Some (boardValue b)) /\
  asBoard (boardValue b) = Some b.
Proof.
  intros Hb. split; [|apply asBoard_boardValue].
  rewrite load_save by now apply datesValid_inRange.
  now rewrite reloaded_valid.
Qed.

(** C4, as stated, fails: a card whose creation date is invalid is saved
    with [null] for the date, which the load turns into the epoch. *)
Lemma save_load_invalid_date_cex : ~ save_load_roundtrip.
Proof.
  intros H.
  assert (Hr : datesInRange undatedBoard).
  { intros l c t [<-|[]] [<-|[]] Ht. discriminate. }
  destruct (H strictDate undatedBoard Hr) as (v & Hload & Hv).
  rewrite load_save in Hload by exact Hr.
  injection Hload as <-. rewrite asBoard_boardValue in Hv.
  vm_compute in Hv. discriminate.
Qed.

(** C5 (as amended). The load returns when nothing or the empty string is
    stored (the board stays the initial one) and when the text saved for a
    board with valid creation dates is stored (that board is restored). It
    throws a SyntaxError when the stored text is not JSON, and a TypeError
    when the stored JSON value holds no array under [lists]. *)
Theorem load_outcomes (dateFallback : Value -> Outcome Date) :
  load dateFallback None = Returns None /\
  load dateFallback (Some []) = Returns None /\
  (forall b, datesValid b ->
     load dateFallback (Some (save b)) = Returns (Some (boardValue b))) /\
  (forall text, text <> [] -> Json.parse text = None ->
     load dateFallback (Some text) = Throws SyntaxError) /\
  (forall text v, text <> [] -> Json.parse text = Some v ->
     hasListsArray v = false ->
     load dateFallback (Some text) = Throws TypeError).
Proof.
  repeat split.
  - intros b Hb. rewrite load_save by now apply datesValid_inRange.
    now rewrite reloaded_valid.
  - apply load_not_json.
  - apply load_no_lists.
Qed.

(** C5, as stated, fails: on a stored text that is not JSON, [JSON.parse]
    throws and nothing catches the exception. *)
Lemma load_throws_cex : ~ load_never_throws.
Proof.
  intros H. destruct (H strictDate (Some (js "{"))) as (r & Hr).
  vm_compute in Hr. discriminate.
Qed.

Lemma datesValid_tidyBoard : datesValid tidyBoard.
Proof.
  intros l c Hl Hc. vm_compute in Hl.
  destruct Hl as [<-|[<-|[<-|[]]]]; vm_compute in Hc;
    try contradiction.
  destruct Hc as [<-|[<-|[]]]; eexists; split; reflexivity.
Defined.

(** The amended C4 on a board with two cards. *)
Lemma load_save_valid_dates_witness :
  datesValid tidyBoard /\
  load strictDate (Some (save tidyBoard)) = Returns (Some (boardValue tidyBoard)).
Proof.
  split; [exact datesValid_tidyBoard|].
  exact (proj1 (load_save_valid_dates strictDate tidyBoard datesValid_tidyBoard)).
Defined.

(** The amended C5 on the stored text [null]. *)
Lemma load_outcomes_witness :
  js "null" <> [] /\
  Json.parse (js "null") = Some VNull /\
  hasListsArray VNull = false /\
  load strictDate (Some (js "null")) = Throws TypeError.
Proof.
  assert (H1 : js "null" <> []) by discriminate.
  assert (H2 : Json.parse (js "null") = Some VNull) by reflexivity.
  assert (H3 : hasListsArray VNull = false) by reflexivity.
  repeat (split; [assumption|]).
  destruct (load_outcomes strictDate) as (_ & _ & _ & _ & Hty).
  exact (Hty (js "null") VNull H1 H2 H3).
Defined.

(** * Further properties of the board store *)

Lemma unique_by_key (A : Type) (key : A -> jsstring) (l : list A) (x y : A) :
  NoDup (map key l) -> In x l -> In y l -> key x = key y -> x = y.
Proof.
  intros ND Hx Hy E.
  pose proof (find_key_unique A key l x ND Hx) as Fx.
  pose proof (find_key_unique A key l y ND Hy) as Fy.
  rewrite E in Fx. congruence.
Qed.

(** X1. An identifier that no list of the board has: [addCard],
    [deleteCard], [updateListTitle] and [deleteList] called with it, and
    [moveCard] called with it as the source, return the board as it is. *)
Theorem unknown_list_id_changes_nothing (b : Board) (listId : jsstring) :
  (forall L, In L (board_lists b) -> list_id L <> listId) ->
  (forall now created title, addCard now created listId title b = b) /\
  (forall cardId, deleteCard listId cardId b = b) /\
  (forall cardId targetListId, moveCard cardId listId targetListId b = b) /\
  (forall newTitle, updateListTitle listId newTitle b = b) /\
  deleteList listId b = b.
Proof.
  intros Hno.
  assert (Hne : forall L, In L (board_lists b) ->
                  streq (list_id L) listId = false)
    by (intros L HL; apply streq_neq; auto).
  repeat apply conj; intros.
  - unfold addCard. rewrite map_fixed; [apply with_lists_same|].
    intros L HL. now rewrite Hne.
  - unfold deleteCard. rewrite map_fixed; [apply with_lists_same|].
    intros L HL. now rewrite Hne.
  - unfold moveCard. destruct (streq listId targetListId); [reflexivity|].
    destruct (find _ (board_lists b)) as [l|] eqn:E; [|reflexivity].
    apply find_some in E as [Hl E]. rewrite Hne in E by exact Hl.
    discriminate.
  - unfold updateListTitle. rewrite map_fixed; [apply with_lists_same|].
    intros L HL. now rewrite Hne.
  - unfold deleteList.
    replace (filter _ (board_lists b)) with (board_lists b);
      [apply with_lists_same|].
    symmetry. apply (filter_key_other List list_id).
    intros H. apply in_map_iff in H as (L & E & HL). now apply (Hno L).
Qed.

Lemma unknown_list_id_changes_nothing_witness :
  (forall L, In L (board_lists initialBoard) -> list_id L <> js "9") /\
  deleteList (js "9") initialBoard = initialBoard.
Proof.
  assert (H : forall L, In L (board_lists initialBoard) -> list_id L <> js "9").
  { intros L [<-|[<-|[<-|[]]]]; vm_compute; discriminate. }
  split; [exact H|].
  exact (proj2 (proj2 (proj2 (proj2
    (unknown_list_id_changes_nothing initialBoard (js "9") H))))).
Defined.

(** X2. A card identifier that no card has in the lists named: [deleteCard]
    and [moveCard] return the board as it is. *)
Theorem unknown_card_id_changes_nothing (b : Board) (listId cardId : jsstring) :
  (forall L, In L (board_lists b) -> list_id L = listId ->
             ~ In cardId (map card_id (list_cards L))) ->
  deleteCard listId cardId b = b /\
  (forall targetListId, moveCard cardId listId targetListId b = b).
Proof.
  intros Hno. split.
  - unfold deleteCard. rewrite map_fixed; [apply with_lists_same|].
    intros L HL. destruct (streq (list_id L) listId) eqn:E; [|reflexivity].
    apply streq_eq in E.
    rewrite (filter_key_other Card card_id) by now apply Hno.
    apply with_cards_same.
  - intros targetListId. unfold moveCard.
    destruct (streq listId targetListId); [reflexivity|].
    destruct (find _ (board_lists b)) as [l|] eqn:E; [|reflexivity].
    apply find_some in E as [Hl E]. apply streq_eq in E.
    destruct (find _ (list_cards l)) as [c|] eqn:Ec; [|reflexivity].
    apply find_some in Ec as [Hc Ec]. apply streq_eq in Ec.
    exfalso. apply (Hno l Hl E). rewrite <- Ec. now apply in_map.
Qed.

Lemma unknown_card_id_changes_nothing_witness :
  (forall L, In L (board_lists tidyBoard) -> list_id L = js "1" ->
             ~ In (js "7") (map card_id (list_cards L))) /\
  deleteCard (js "1") (js "7") tidyBoard = tidyBoard.
Proof.
  assert (H : forall L, In L (board_lists tidyBoard) -> list_id L = js "1" ->
                ~ In (js "7") (map card_id (list_cards L))).
  { intros L [<-|[<-|[<-|[]]]] _; vm_compute; intuition discriminate. }
  split; [exact H|].
  exact (proj1 (unknown_card_id_changes_nothing tidyBoard (js "1") (js "7") H)).
Defined.

(** X3. Deleting a card a second time changes nothing more. *)
Theorem deleteCard_idempotent (listId cardId : jsstring) (b : Board) :
  deleteCard listId cardId (deleteCard listId cardId b)
  = deleteCard listId cardId b.
Proof.
  unfold deleteCard, with_lists; simpl. f_equal.
  rewrite map_map. apply map_ext. intros L.
  destruct (streq (list_id L) listId) eqn:E.
  - simpl. rewrite E. unfold with_cards; simpl.
    now rewrite filter_idempotent.
  - now rewrite E.
Qed.

(** X4. [deleteCard] takes the card with the given identifier out of [L], the
    other cards of [L] keeping their order, and leaves every list with
    another identifier as it is. *)
Theorem deleteCard_removes_the_card (b : Board) (L : List) (C : Card)
    (before after : list Card) (i : nat) :
  nth_error (board_lists b) i = Some L ->
  list_cards L = before ++ C :: after ->
  NoDup (map card_id (list_cards L)) ->
  let b' := deleteCard (list_id L) (card_id C) b in
  nth_error (board_lists b') i = Some (with_cards L (before ++ after)) /\
  (forall j L', nth_error (board_lists b) j = Some L' ->
     list_id L' <> list_id L -> nth_error (board_lists b') j = Some L').
Proof.
  intros Hi Hsplit ND b'. unfold b', deleteCard; simpl. split.
  - rewrite (nth_error_map_some _ Hi), streq_refl, Hsplit.
    rewrite Hsplit in ND. now rewrite (filter_key_split Card card_id).
  - intros j L' Hj Hne. rewrite (nth_error_map_some _ Hj).
    apply streq_neq in Hne. now rewrite Hne.
Qed.

Lemma deleteCard_removes_the_card_witness :
  nth_error (board_lists tidyBoard) 0 = Some tidySource /\
  list_cards tidySource = [cardA] ++ cardC :: [] /\
  NoDup (map card_id (list_cards tidySource)) /\
  nth_error (board_lists (deleteCard (list_id tidySource) (card_id cardC)
                            tidyBoard)) 0
  = Some (with_cards tidySource ([cardA] ++ [])).
Proof.
  assert (H1 : nth_error (board_lists tidyBoard) 0 = Some tidySource)
    by reflexivity.
  assert (H2 : list_cards tidySource = [cardA] ++ cardC :: []) by reflexivity.
  assert (H3 : NoDup (map card_id (list_cards tidySource)))
    by nodup_by_computation.
  repeat (split; [assumption|]).
  exact (proj1 (deleteCard_removes_the_card tidyBoard tidySource cardC
                  [cardA] [] 0 H1 H2 H3)).
Defined.

(** X5. [addCard], [deleteCard] and [moveCard] neither add, remove, reorder
    nor rename a list: the identifiers and titles of the lists stay as
    they are, in their order. *)
Theorem card_operations_keep_the_lists (b : Board) :
  (forall now created listId title,
     listHeaders (addCard now created listId title b) = listHeaders b) /\
  (forall listId cardId,
     listHeaders (deleteCard listId cardId b) = listHeaders b) /\
  (forall cardId sourceListId targetListId,
     listHeaders (moveCard cardId sourceListId targetListId b)
     = listHeaders b).
Proof.
  repeat apply conj; intros.
  - unfold listHeaders, addCard; simpl. rewrite map_map.
    apply map_ext. intros L. now destruct (streq (list_id L) listId).
  - unfold listHeaders, deleteCard; simpl. rewrite map_map.
    apply map_ext. intros L. now destruct (streq (list_id L) listId).
  - unfold listHeaders, moveCard.
    destruct (streq sourceListId targetListId); [reflexivity|].
    destruct (find _ (board_lists b)) as [l|]; [|reflexivity].
    destruct (find _ (list_cards l)) as [c|]; [|reflexivity].
    simpl. rewrite map_map. apply map_ext. intros L.
    destruct (streq (list_id L) sourceListId); [reflexivity|].
    now destruct (streq (list_id L) targetListId).
Qed.

(** X6. [moveCard] leaves every list whose identifier is neither the source
    nor the target as it is, at its place. *)
Theorem moveCard_touches_source_and_target_only (b : Board)
    (cardId sourceListId targetListId : jsstring) (i : nat) (L : List) :
  nth_error (board_lists b) i = Some L ->
  list_id L <> sourceListId -> list_id L <> targetListId ->
  nth_error (board_lists (moveCard cardId sourceListId targetListId b)) i
  = Some L.
Proof.
  intros Hi Hs Ht. unfold moveCard.
  destruct (streq sourceListId targetListId); [exact Hi|].
  destruct (find _ (board_lists b)) as [l|]; [|exact Hi].
  destruct (find _ (list_cards l)) as [c|]; [|exact Hi].
  simpl. rewrite (nth_error_map_some _ Hi).
  apply streq_neq in Hs, Ht. now rewrite Hs, Ht.
Qed.

Lemma moveCard_touches_source_and_target_only_witness :
  nth_error (board_lists tidyBoard) 2
  = Some (mkList (js "3") (js "Completado") []) /\
  nth_error (board_lists (moveCard (js "1000") (js "1") (js "2") tidyBoard)) 2
  = Some (mkList (js "3") (js "Completado") []).
Proof.
  assert (H : nth_error (board_lists tidyBoard) 2
              = Some (mkList (js "3") (js "Completado") [])) by reflexivity.
  split; [exact H|].
  apply (moveCard_touches_source_and_target_only tidyBoard (js "1000")
           (js "1") (js "2") 2 _ H); vm_compute; discriminate.
Defined.

(** X7. [updateListTitle] changes titles only: every list keeps its
    identifier and its cards, and the board keeps its lists in order. *)
Theorem updateListTitle_keeps_the_cards (b : Board) (listId newTitle : jsstring) :
  listContents (updateListTitle listId newTitle b) = listContents b.
Proof.
  unfold listContents, updateListTitle; simpl. rewrite map_map.
  apply map_ext. intros L. now destruct (streq (list_id L) listId).
Qed.

(** ** Adding and deleting *)

(** X8. A card added under an identifier that is new to the lists it goes to,
    then deleted by that identifier: the board is what it was. *)
Theorem addCard_then_deleteCard (b : Board) (now created : Z)
    (listId title : jsstring) :
  (forall L, In L (board_lists b) -> list_id L = listId ->
             ~ In (JsString.ofInteger now) (map card_id (list_cards L))) ->
  deleteCard listId (JsString.ofInteger now)
    (addCard now created listId title b) = b.
Proof.
  intros Hfresh. unfold deleteCard, addCard; simpl.
  unfold with_lists at 1; simpl. rewrite map_map.
  rewrite map_fixed; [apply with_lists_same|].
  intros L HL. destruct (streq (list_id L) listId) eqn:E.
  - simpl. rewrite E. unfold with_cards at 1; simpl.
    rewrite filter_app; simpl. rewrite streq_refl; simpl.
    rewrite (filter_key_other Card card_id)
      by (apply Hfresh; [exact HL|now apply streq_eq]).
    rewrite List.app_nil_r. apply with_cards_same.
  - now rewrite E.
Qed.

Lemma addCard_then_deleteCard_witness :
  (forall L, In L (board_lists tidyBoard) -> list_id L = js "2" ->
             ~ In (JsString.ofInteger 1002)
                  (map card_id (list_cards L))) /\
  deleteCard (js "2") (JsString.ofInteger 1002)
    (addCard 1002 1002 (js "2") (js "c") tidyBoard) = tidyBoard.
Proof.
  assert (H : forall L, In L (board_lists tidyBoard) -> list_id L = js "2" ->
                ~ In (JsString.ofInteger 1002) (map card_id (list_cards L))).
  { intros L [<-|[<-|[<-|[]]]] E; vm_compute in E; try discriminate.
    vm_compute. tauto. }
  split; [exact H|].
  exact (addCard_then_deleteCard tidyBoard 1002 1002 (js "2") (js "c") H).
Defined.

(** ** Titles made of white space *)

Lemma trimStart_nil_iff (s : jsstring) :
  JsString.trimStart s = [] <-> allSpaces s = true.
Proof.
  unfold allSpaces. induction s as [|c r IH]; simpl; [tauto|].
  destruct (JsString.is_space c); simpl; [exact IH|].
  split; discriminate.
Qed.

Lemma trimStart_spaces_only (s : jsstring) :
  allSpaces (JsString.trimStart s) = true -> JsString.trimStart s = [].
Proof.
  unfold allSpaces. induction s as [|c r IH]; simpl; [reflexivity|].
  destruct (JsString.is_space c) eqn:E; [exact IH|].
  simpl. rewrite E. discriminate.
Qed.

Lemma allSpaces_rev (s : jsstring) : allSpaces (rev s) = allSpaces s.
Proof.
  unfold allSpaces. induction s as [|c r IH]; [reflexivity|].
  simpl. rewrite forallb_app, IH. simpl.
  destruct (forallb JsString.is_space r), (JsString.is_space c); reflexivity.
Qed.

Lemma rev_nil_iff {A : Type} (l : list A) : rev l = [] <-> l = [].
Proof.
  split; intros H; [|now subst].
  rewrite <- (rev_involutive l), H. reflexivity.
Qed.

(** [trim] leaves nothing exactly of the strings made of white space. *)
Lemma blank_iff_allSpaces (s : jsstring) : blank s <-> allSpaces s = true.
Proof.
  unfold blank, JsString.trim, JsString.trimEnd.
  split.
  - intros H. apply rev_nil_iff, trimStart_nil_iff in H.
    rewrite allSpaces_rev in H.
    apply trimStart_nil_iff. now apply trimStart_spaces_only.
  - intros H. apply trimStart_nil_iff in H. now rewrite H.
Qed.

Lemma truthy_trim_allSpaces (s : jsstring) :
  JsString.truthy (JsString.trim s) = negb (allSpaces s).
Proof.
  destruct (allSpaces s) eqn:E.
  - apply blank_iff_allSpaces in E. apply truthy_trim_blank in E.
    now rewrite E.
  - destruct (JsString.truthy (JsString.trim s)) eqn:T; [reflexivity|].
    apply truthy_trim_blank, blank_iff_allSpaces in T. congruence.
Qed.

(** X9. [handleAddCard] adds a card exactly when the typed title holds a
    character that is not white space: then the list displayed gets a new
    last card whose title is the text as typed, not trimmed, without
    description, and the form is cleared and closed. *)
Theorem handleAddCard_adds_unless_spaces (now created : Z) (L : List)
    (app : AppState) (ls : ListState) (i : nat) :
  nth_error (board_lists (board app)) i = Some L ->
  let next := handleAddCard now created L (app, ls) in
  (allSpaces (newCardTitle ls) = true -> next = (app, ls)) /\
  (allSpaces (newCardTitle ls) = false ->
     nth_error (board_lists (board (fst next))) i
     = Some (with_cards L
               (list_cards L ++
                [mkCard (JsString.ofInteger now) (newCardTitle ls) None
                   (Some created)])) /\
     newCardTitle (snd next) = [] /\ isAddingCard (snd next) = false).
Proof.
  intros Hi next. unfold next, handleAddCard.
  rewrite truthy_trim_allSpaces, negb_involutive.
  split; intros E; rewrite E; [reflexivity|].
  simpl. repeat split.
  unfold addCard; simpl.
  now rewrite (nth_error_map_some _ Hi), streq_refl.
Qed.

Lemma handleAddCard_adds_unless_spaces_witness :
  nth_error (board_lists (board initialApp)) 0
  = Some (mkList (js "1") (js "Por Hacer") []) /\
  newCardTitle
    (snd (handleAddCard 5 5 (mkList (js "1") (js "Por Hacer") [])
            (initialApp, mkListState true (js " a ") false))) = [].
Proof.
  assert (H : nth_error (board_lists (board initialApp)) 0
              = Some (mkList (js "1") (js "Por Hacer") [])) by reflexivity.
  split; [exact H|].
  exact (proj1 (proj2 (proj2
    (handleAddCard_adds_unless_spaces 5 5 _ initialApp
       (mkListState true (js " a ") false) 0 H) eq_refl))).
Defined.

(** X10. [handleAddCard] run on the state that a first [handleAddCard]
    has left changes nothing more: the first call either refused the
    title or cleared it, and the second one refuses it in both cases. *)
Theorem handleAddCard_twice (now1 created1 now2 created2 : Z) (L1 L2 : List)
    (st : AppState * ListState) :
  handleAddCard now2 created2 L2 (handleAddCard now1 created1 L1 st)
  = handleAddCard now1 created1 L1 st.
Proof.
  destruct st as [app ls]. unfold handleAddCard at 2 3.
  destruct (negb (JsString.truthy (JsString.trim (newCardTitle ls)))) eqn:E.
  - unfold handleAddCard. now rewrite E.
  - reflexivity.
Qed.

(** X11. [addList] adds a list exactly when the typed title holds a character
    that is not white space: then the board gets a new last list, empty,
    whose title is the text as typed, and the input is cleared and
    closed; the lists already there stay as they are. *)
Theorem addList_adds_unless_spaces (now : Z) (st : AppState) :
  (allSpaces (newListTitle st) = true -> addList now st = st) /\
  (allSpaces (newListTitle st) = false ->
     board_lists (board (addList now st))
     = board_lists (board st)
       ++ [mkList (JsString.ofInteger now) (newListTitle st) []] /\
     newListTitle (addList now st) = [] /\
     isAddingList (addList now st) = false).
Proof.
  unfold addList. rewrite truthy_trim_allSpaces, negb_involutive.
  split; intros E; rewrite E; [reflexivity|].
  simpl. repeat split.
Qed.

Lemma addList_adds_unless_spaces_witness :
  allSpaces (js "  ") = true /\
  addList 5 (typeListTitle (js "  ") initialBoard)
  = typeListTitle (js "  ") initialBoard.
Proof.
  split; [reflexivity|].
  exact (proj1 (addList_adds_unless_spaces 5
                  (typeListTitle (js "  ") initialBoard)) eq_refl).
Defined.

(** X12. [addList] run on the state that a first [addList] has left
    changes nothing more. *)
Theorem addList_twice (now1 now2 : Z) (st : AppState) :
  addList now2 (addList now1 st) = addList now1 st.
Proof.
  unfold addList at 2 3.
  destruct (negb (JsString.truthy (JsString.trim (newListTitle st)))) eqn:E.
  - unfold addList. now rewrite E.
  - reflexivity.
Qed.

(** X13. A list added under an identifier that no list has, then deleted by
    that identifier: the board is what it was. *)
Theorem addList_then_deleteList (now : Z) (st : AppState) :
  ~ In (JsString.ofInteger now) (listIds (board st)) ->
  deleteList (JsString.ofInteger now) (board (addList now st)) = board st.
Proof.
  intros Hfresh.
  assert (Hsame : filter (fun l => negb (streq (list_id l)
                                           (JsString.ofInteger now)))
                    (board_lists (board st)) = board_lists (board st))
    by now apply (filter_key_other List list_id).
  unfold addList.
  destruct (negb (JsString.truthy (JsString.trim (newListTitle st)))).
  - unfold deleteList. rewrite Hsame. apply with_lists_same.
  - unfold deleteList. cbn [board board_lists with_lists].
    rewrite filter_app, Hsame. cbn [filter list_id].
    rewrite streq_refl. cbn [negb]. rewrite List.app_nil_r.
    destruct (board st); reflexivity.
Qed.

Lemma addList_then_deleteList_witness :
  ~ In (JsString.ofInteger 5) (listIds (board (typeListTitle (js "x") initialBoard))) /\
  deleteList (JsString.ofInteger 5)
    (board (addList 5 (typeListTitle (js "x") initialBoard)))
  = initialBoard.
Proof.
  assert (H : ~ In (JsString.ofInteger 5)
                (listIds (board (typeListTitle (js "x") initialBoard))))
    by (vm_compute; intuition discriminate).
  split; [exact H|].
  exact (addList_then_deleteList 5 (typeListTitle (js "x") initialBoard) H).
Defined.

(** ** Drag and drop, and the editing of a title *)

(** X14. A drop without a drag in progress changes nothing; a card dropped on
    the list it was dragged from leaves the board as it is and ends the
    drag. *)
Theorem drop_without_move (st : AppState) (targetListId : jsstring) :
  (draggedCard st = None -> handleDrop targetListId st = st) /\
  (forall card,
     board (handleDrop targetListId (handleDragStart card targetListId st))
     = board st /\
     draggedCard (handleDrop targetListId
                    (handleDragStart card targetListId st)) = None).
Proof.
  split.
  - intros H. unfold handleDrop. now rewrite H.
  - intros card. unfold handleDrop, handleDragStart; simpl.
    unfold moveCard. now rewrite streq_refl.
Qed.

Lemma drop_without_move_witness :
  draggedCard initialApp = None /\
  handleDrop (js "2") initialApp = initialApp.
Proof.
  split; [reflexivity|].
  exact (proj1 (drop_without_move initialApp (js "2")) eq_refl).
Defined.

(** X15. Opening the editor of a title and saving without typing leaves the
    board as it is, when no other list has the identifier of the list
    edited. *)
Theorem edit_title_and_save_unchanged (L : List) (app : AppState)
    (ls : ListState) :
  NoDup (listIds (board app)) ->
  In L (board_lists (board app)) ->
  board (saveTitle L (fst (startEditingTitle L (app, ls)))) = board app.
Proof.
  intros ND HL. unfold saveTitle, startEditingTitle.
  cbn [fst editingListTitle].
  destruct (JsString.truthy (JsString.trim (list_title L))); [|reflexivity].
  cbn [board setBoard]. unfold updateListTitle.
  rewrite map_fixed; [apply with_lists_same|].
  intros L' HL'. destruct (streq (list_id L') (list_id L)) eqn:E;
    [|reflexivity].
  apply streq_eq in E.
  rewrite (unique_by_key List list_id _ L' L ND HL' HL E).
  apply with_title_same.
Qed.

Lemma edit_title_and_save_unchanged_witness :
  NoDup (listIds (board initialApp)) /\
  In (mkList (js "1") (js "Por Hacer") []) (board_lists (board initialApp)) /\
  board (saveTitle (mkList (js "1") (js "Por Hacer") [])
           (fst (startEditingTitle (mkList (js "1") (js "Por Hacer") [])
                   (initialApp, mkListState false [] true))))
  = board initialApp.
Proof.
  assert (H1 : NoDup (listIds (board initialApp))) by nodup_by_computation.
  assert (H2 : In (mkList (js "1") (js "Por Hacer") [])
                 (board_lists (board initialApp))) by in_by_computation.
  repeat (split; [assumption|]).
  exact (edit_title_and_save_unchanged _ initialApp
           (mkListState false [] true) H1 H2).
Defined.

(** X16. What was typed into the title editor is dropped by [cancelEdit]: a
    [saveTitle] run on the state that [cancelEdit] has left finds an
    empty title and leaves the board as it is. *)
Theorem cancelled_edit_is_not_saved (L : List) (app : AppState)
    (typed : jsstring) :
  board (saveTitle L (cancelEdit (typeEditedTitle typed app))) = board app.
Proof. reflexivity. Qed.

(** ** Distinct identifiers as an invariant of the store *)

Lemma occurrences_app (x : jsstring) (l1 l2 : list jsstring) :
  occurrences x (l1 ++ l2) = (occurrences x l1 + occurrences x l2)%nat.
Proof.
  induction l1 as [|y l1 IH]; simpl; [reflexivity|]. rewrite IH. lia.
Qed.

Lemma occurrences_zero (x : jsstring) (l : list jsstring) :
  occurrences x l = 0%nat <-> ~ In x l.
Proof.
  induction l as [|y l IH]; simpl; [tauto|].
  destruct (streq y x) eqn:E.
  - apply streq_eq in E. split; [discriminate|]. intros H. exfalso. auto.
  - apply streq_neq in E. simpl. rewrite IH. tauto.
Qed.

Lemma occurrences_in (x : jsstring) (l : list jsstring) :
  In x l -> (1 <= occurrences x l)%nat.
Proof.
  intros H. destruct (occurrences x l) eqn:E; [|lia].
  apply occurrences_zero in E. contradiction.
Qed.

Lemma NoDup_occurrences (l : list jsstring) :
  NoDup l <-> forall x, (occurrences x l <= 1)%nat.
Proof.
  induction l as [|y l IH]; simpl.
  - split; [intros _ x; lia|constructor].
  - split.
    + intros ND x. inversion ND as [|? ? Hn ND']; subst.
      destruct (streq y x) eqn:E.
      * apply streq_eq in E. subst x.
        apply occurrences_zero in Hn. lia.
      * simpl. now apply IH.
    + intros H. constructor.
      * apply occurrences_zero. specialize (H y).
        rewrite streq_refl in H. lia.
      * apply IH. intros x. specialize (H x). lia.
Qed.

Lemma occurrences_filter (x : jsstring) (p : Card -> bool) (cards : list Card) :
  (occurrences x (map card_id (filter p cards))
   <= occurrences x (map card_id cards))%nat.
Proof.
  induction cards as [|c cards IH]; simpl; [lia|].
  destruct (p c); simpl; lia.
Qed.

Lemma idsOf_app (l1 l2 : list List) : idsOf (l1 ++ l2) = idsOf l1 ++ idsOf l2.
Proof. unfold idsOf. apply flat_map_app. Qed.

(** A change of each list that adds no occurrence of [x] adds none to the
    board. *)
Lemma occurrences_map_le (x : jsstring) (f : List -> List) (lists : list List) :
  (forall L, (occurrences x (map card_id (list_cards (f L)))
              <= occurrences x (map card_id (list_cards L)))%nat) ->
  (occurrences x (idsOf (map f lists)) <= occurrences x (idsOf lists))%nat.
Proof.
  intros H. induction lists as [|L lists IH]; simpl; [lia|].
  rewrite !occurrences_app. specialize (H L). lia.
Qed.

Lemma occurrences_filter_lists (x : jsstring) (p : List -> bool)
    (lists : list List) :
  (occurrences x (idsOf (filter p lists)) <= occurrences x (idsOf lists))%nat.
Proof.
  induction lists as [|L lists IH]; simpl; [lia|].
  destruct (p L); simpl; rewrite ?occurrences_app; lia.
Qed.

Section MoveCounts.

Variables cardId sourceListId targetListId : jsstring.
Variable card : Card.
Hypothesis card_has_id : card_id card = cardId.
Hypothesis other_list : streq sourceListId targetListId = false.

(** What [moveCard] does to each list. *)
Let step (list : List) : List :=
  if streq (list_id list) sourceListId
  then with_cards list
         (filter (fun c => negb (streq (card_id c) cardId)) (list_cards list))
  else if streq (list_id list) targetListId
  then with_cards list (list_cards list ++ [card])
  else list.

Lemma filter_drops_id (cards : list Card) :
  occurrences cardId
    (map card_id (filter (fun c => negb (streq (card_id c) cardId)) cards))
  = 0%nat.
Proof.
  apply occurrences_zero. intros H.
  apply in_map_iff in H as (c & Ec & Hc).
  apply filter_In in Hc as [_ Hc]. rewrite Ec, streq_refl in Hc.
  discriminate.
Qed.

Lemma step_other_id (x : jsstring) (L : List) :
  x <> cardId ->
  (occurrences x (map card_id (list_cards (step L)))
   <= occurrences x (map card_id (list_cards L)))%nat.
Proof.
  intros Hx. unfold step.
  destruct (streq (list_id L) sourceListId).
  - apply occurrences_filter.
  - destruct (streq (list_id L) targetListId); [|lia].
    simpl. rewrite map_app, occurrences_app. simpl.
    assert (E : streq (card_id card) x = false)
      by (apply streq_neq; congruence).
    rewrite E. lia.
Qed.

(** The occurrences of the moved identifier: those in source lists are
    dropped, one is added for each target list. *)
Lemma step_moved_id (lists : list List) :
  (occurrences cardId (idsOf (map step lists))
   + occurrences cardId
       (idsOf (filter (fun l => streq (list_id l) sourceListId) lists))
   <= occurrences cardId (idsOf lists)
      + occurrences targetListId (map list_id lists))%nat.
Proof.
  induction lists as [|L lists IH]; simpl; [lia|].
  rewrite !occurrences_app. unfold step at 1.
  destruct (streq (list_id L) sourceListId) eqn:Es.
  - simpl. rewrite occurrences_app, filter_drops_id. lia.
  - destruct (streq (list_id L) targetListId) eqn:Et.
    + simpl. rewrite map_app, occurrences_app. simpl.
      rewrite card_has_id, streq_refl. lia.
    + lia.
Qed.

End MoveCounts.

Lemma moveCard_keeps_distinct (b : Board)
    (cardId sourceListId targetListId : jsstring) :
  distinctIds b ->
  NoDup (cardIds (moveCard cardId sourceListId targetListId b)).
Proof.
  intros [NDl NDc]. unfold moveCard.
  destruct (streq sourceListId targetListId) eqn:Eo; [exact NDc|].
  destruct (find _ (board_lists b)) as [l|] eqn:El; [|exact NDc].
  destruct (find _ (list_cards l)) as [c|] eqn:Ec; [|exact NDc].
  apply find_some in El as [Hl El]. apply find_some in Ec as [Hc Ec].
  apply streq_eq in Ec.
  apply NoDup_occurrences. intros x.
  pose proof (proj1 (NoDup_occurrences _) NDc) as Hcards.
  pose proof (proj1 (NoDup_occurrences _) NDl targetListId) as Hlists.
  change (cardIds b) with (idsOf (board_lists b)) in Hcards.
  unfold cardIds; simpl.
  match goal with
  | |- (occurrences x (flat_map _ (map ?f _)) <= 1)%nat =>
      change (occurrences x (idsOf (map f (board_lists b))) <= 1)%nat
  end.
  destruct (streq x cardId) eqn:Ex.
  - apply streq_eq in Ex. subst x.
    pose proof (step_moved_id cardId sourceListId targetListId c Ec
                  (board_lists b)) as Hm.
    assert (Hsrc : (1 <= occurrences cardId
                      (idsOf (filter (fun l0 => streq (list_id l0) sourceListId)
                                (board_lists b))))%nat).
    { apply occurrences_in. unfold idsOf. apply in_flat_map.
      exists l. split; [apply filter_In; auto|].
      rewrite <- Ec. now apply in_map. }
    specialize (Hcards cardId). unfold listIds in Hlists.
    match type of Hm with
    | (?a + _ <= _)%nat => change (a <= 1)%nat
    end.
    lia.
  - apply streq_neq in Ex.
    etransitivity; [|apply (Hcards x)].
    apply occurrences_map_le. intros L.
    now apply (step_other_id cardId sourceListId targetListId c Ec).
Qed.

Lemma listIds_headers (b : Board) : listIds b = map fst (listHeaders b).
Proof. unfold listIds, listHeaders. now rewrite map_map. Qed.

Lemma listHeaders_moveCard (b : Board) (cardId sourceListId targetListId : jsstring) :
  listHeaders (moveCard cardId sourceListId targetListId b) = listHeaders b.
Proof.
  unfold listHeaders, moveCard.
  destruct (streq sourceListId targetListId); [reflexivity|].
  destruct (find _ (board_lists b)) as [l|]; [|reflexivity].
  destruct (find _ (list_cards l)) as [c|]; [|reflexivity].
  simpl. rewrite map_map. apply map_ext. intros L.
  destruct (streq (list_id L) sourceListId); [reflexivity|].
  now destruct (streq (list_id L) targetListId).
Qed.

Lemma listIds_map_same (f : List -> List) (lists : list List) :
  (forall L, list_id (f L) = list_id L) ->
  map list_id (map f lists) = map list_id lists.
Proof. intros H. rewrite map_map. now apply map_ext. Qed.

Lemma NoDup_filter_map (A : Type) (key : A -> jsstring) (p : A -> bool)
    (l : list A) :
  NoDup (map key l) -> NoDup (map key (filter p l)).
Proof.
  induction l as [|x l IH]; simpl; intros ND; [constructor|].
  inversion ND as [|? ? Hn ND']; subst.
  destruct (p x); simpl; [|auto].
  constructor; [|auto].
  intros H. apply Hn. apply in_map_iff in H as (y & E & Hy).
  apply filter_In in Hy as [Hy _]. rewrite <- E. now apply in_map.
Qed.

Lemma idsOf_map_same (f : List -> List) (lists : list List) :
  (forall L, list_cards (f L) = list_cards L) ->
  idsOf (map f lists) = idsOf lists.
Proof.
  intros H. induction lists as [|L lists IH]; simpl; [reflexivity|].
  now rewrite H, IH.
Qed.

(** One store operation whose clock reading is new to the board keeps the
    identifiers distinct. *)
Lemma applyOp_keeps_distinct (b : Board) (o : StoreOp) :
  distinctIds b -> freshFor b o -> distinctIds (applyOp b o).
Proof.
  intros [NDl NDc] Hfresh.
  destruct o as [t0 t1 listId title | listId cardId
                | cardId sourceListId targetListId | t0 title
                | listId newTitle | listId]; simpl in *.
  - split.
    + unfold listIds, addCard; simpl. rewrite listIds_map_same; [exact NDl|].
      intros L. now destruct (streq (list_id L) listId).
    + now apply addCard_fresh_keeps_distinct.
  - split.
    + unfold listIds, deleteCard; simpl. rewrite listIds_map_same; [exact NDl|].
      intros L. now destruct (streq (list_id L) listId).
    + apply NoDup_occurrences. intros x.
      etransitivity; [|apply (proj1 (NoDup_occurrences _) NDc x)].
      unfold cardIds, deleteCard; simpl.
      apply (occurrences_map_le x). intros L.
      destruct (streq (list_id L) listId); [apply occurrences_filter|lia].
  - split.
    + rewrite listIds_headers, listHeaders_moveCard, <- listIds_headers.
      exact NDl.
    + apply moveCard_keeps_distinct. now split.
  - unfold addList; simpl.
    destruct (negb _); simpl; [now split|].
    split.
    + unfold listIds; simpl. rewrite map_app; simpl.
      apply (NoDup_Add (Add_app _ _ [])). rewrite List.app_nil_r. auto.
    + unfold cardIds; simpl. rewrite flat_map_app; simpl.
      now rewrite List.app_nil_r.
  - split.
    + unfold listIds, updateListTitle; simpl.
      rewrite listIds_map_same; [exact NDl|].
      intros L. now destruct (streq (list_id L) listId).
    + unfold cardIds, updateListTitle; simpl.
      change (NoDup (idsOf (map (fun list =>
                if streq (list_id list) listId
                then with_title list newTitle else list) (board_lists b)))).
      rewrite idsOf_map_same; [exact NDc|].
      intros L. now destruct (streq (list_id L) listId).
  - split.
    + unfold listIds, deleteList; simpl. now apply NoDup_filter_map.
    + apply NoDup_occurrences. intros x.
      etransitivity; [|apply (proj1 (NoDup_occurrences _) NDc x)].
      unfold cardIds, deleteList; simpl.
      apply (occurrences_filter_lists x).
Qed.

(** X17. Starting from a board whose list identifiers and card identifiers are
    pairwise distinct, every sequence of store operations in which each
    clock reading turned into an identifier is new to the board reaches a
    board with pairwise distinct identifiers. Only the clock can break
    the invariant: [deleteCard], [moveCard], [updateListTitle] and
    [deleteList] always keep it. *)
Theorem distinct_ids_kept (ops : list StoreOp) :
  forall b, distinctIds b -> allFresh ops b -> distinctIds (runOps ops b).
Proof.
  induction ops as [|o ops IH]; intros b Hb Hf; [exact Hb|].
  destruct Hf as [Ho Hrest]. simpl. apply IH; [|exact Hrest].
  now apply applyOp_keeps_distinct.
Qed.

Lemma distinctIds_initialBoard : distinctIds initialBoard.
Proof. split; [nodup_by_computation|constructor]. Defined.

Lemma distinct_ids_kept_witness :
  distinctIds initialBoard /\
  allFresh [ OpAddCard 1000 1000 (js "1") (js "a");
             OpAddCard 1001 1001 (js "1") (js "b");
             OpMoveCard (js "1000") (js "1") (js "2");
             OpAddList 1002 (js "Blocked");
             OpDeleteList (js "3") ] initialBoard /\
  distinctIds
    (runOps [ OpAddCard 1000 1000 (js "1") (js "a");
              OpAddCard 1001 1001 (js "1") (js "b");
              OpMoveCard (js "1000") (js "1") (js "2");
              OpAddList 1002 (js "Blocked");
              OpDeleteList (js "3") ] initialBoard).
Proof.
  assert (H2 : allFresh [ OpAddCard 1000 1000 (js "1") (js "a");
                          OpAddCard 1001 1001 (js "1") (js "b");
                          OpMoveCard (js "1000") (js "1") (js "2");
                          OpAddList 1002 (js "Blocked");
                          OpDeleteList (js "3") ] initialBoard)
    by (vm_compute; intuition discriminate).
  split; [exact distinctIds_initialBoard|]. split; [exact H2|].
  exact (distinct_ids_kept _ initialBoard distinctIds_initialBoard H2).
Defined.

(** ** Cards are created by [addCard] only *)

Lemma allCards_in (lists : list List) (c : Card) :
  In c (flat_map list_cards lists) <->
  exists L, In L lists /\ In c (list_cards L).
Proof. apply in_flat_map. Qed.

Lemma allCards_map (f : List -> List) (lists : list List) :
  (forall L c, In L lists -> In c (list_cards (f L)) ->
               In c (flat_map list_cards lists)) ->
  forall c, In c (flat_map list_cards (map f lists)) ->
            In c (flat_map list_cards lists).
Proof.
  intros H c Hc. apply allCards_in in Hc as (L' & HL' & Hc).
  apply in_map_iff in HL' as (L & <- & HL). now apply (H L).
Qed.

(** X18. An operation other than [addCard] creates no card and alters none:
    every card of the board it returns, with its identifier, title,
    description and creation date, was a card of the board before. *)
Theorem only_addCard_creates_cards (b : Board) (o : StoreOp) (c : Card) :
  addsNoCard o = true ->
  In c (allCards (applyOp b o)) -> In c (allCards b).
Proof.
  intros Ho. unfold allCards.
  destruct o as [t0 t1 listId title | listId cardId
                | cardId sourceListId targetListId | t0 title
                | listId newTitle | listId]; simpl in *;
    try discriminate.
  - unfold deleteCard; simpl. apply allCards_map.
    intros L c' HL Hc'. apply allCards_in. exists L. split; [exact HL|].
    destruct (streq (list_id L) listId); [|exact Hc'].
    simpl in Hc'. now apply filter_In in Hc'.
  - unfold moveCard.
    destruct (streq sourceListId targetListId); [auto|].
    destruct (find _ (board_lists b)) as [l|] eqn:El; [|auto].
    destruct (find _ (list_cards l)) as [c0|] eqn:Ec; [|auto].
    apply find_some in El as [Hl _]. apply find_some in Ec as [Hc0 _].
    simpl. apply allCards_map.
    intros L c' HL Hc'. apply allCards_in.
    destruct (streq (list_id L) sourceListId).
    + exists L. split; [exact HL|]. simpl in Hc'. now apply filter_In in Hc'.
    + destruct (streq (list_id L) targetListId); [|eauto].
      simpl in Hc'. apply in_app_or in Hc' as [Hc'|[<-|[]]]; eauto.
  - unfold addList; simpl. destruct (negb _); simpl; [auto|].
    rewrite flat_map_app; simpl. now rewrite List.app_nil_r.
  - unfold updateListTitle; simpl. apply allCards_map.
    intros L c' HL Hc'. apply allCards_in. exists L. split; [exact HL|].
    now destruct (streq (list_id L) listId).
  - unfold deleteList; simpl. intros Hc.
    apply allCards_in in Hc as (L & HL & Hc). apply filter_In in HL as [HL _].
    apply allCards_in. eauto.
Qed.

Lemma only_addCard_creates_cards_witness :
  addsNoCard (OpMoveCard (js "1000") (js "1") (js "2")) = true /\
  In cardA (allCards (applyOp tidyBoard
                        (OpMoveCard (js "1000") (js "1") (js "2")))) /\
  In cardA (allCards tidyBoard).
Proof.
  assert (H1 : addsNoCard (OpMoveCard (js "1000") (js "1") (js "2")) = true)
    by reflexivity.
  assert (H2 : In cardA (allCards (applyOp tidyBoard
                 (OpMoveCard (js "1000") (js "1") (js "2")))))
    by in_by_computation.
  repeat (split; [assumption|]).
  exact (only_addCard_creates_cards tidyBoard _ cardA H1 H2).
Defined.

(** * Further properties of the persistence *)

Lemma setProp_same (props : list (jsstring * Value)) (k : jsstring) (v : Value) :
  Json.getProp props k = Some v -> Json.setProp props k v = props.
Proof.
  induction props as [|[k' w] props IH]; simpl; [discriminate|].
  destruct (streq k' k); intros H.
  - now injection H as ->.
  - now rewrite IH.
Qed.

Lemma setProp_absent (props : list (jsstring * Value)) (k : jsstring) (v : Value) :
  Json.getProp props k = None -> Json.setProp props k v = props ++ [(k, v)].
Proof.
  induction props as [|[k' w] props IH]; simpl; [reflexivity|].
  destruct (streq k' k); [discriminate|]. intros H. now rewrite IH.
Qed.

Lemma reloaded_datesValid (b : Board) : datesInRange b -> datesValid (reloaded b).
Proof.
  intros Hb l c Hl Hc. unfold reloaded in Hl; simpl in Hl.
  apply in_map_iff in Hl as (l0 & <- & Hl0).
  unfold reloadedList in Hc; simpl in Hc.
  apply in_map_iff in Hc as (c0 & <- & Hc0).
  unfold reloadedCard; simpl.
  destruct (card_createdAt c0) as [t|] eqn:E.
  - exists t. split; [reflexivity|]. now apply (Hb l0 c0 t).
  - exists 0%Z. split; reflexivity.
Qed.

(** X19. Loading the text saved for any board returns: it never throws. The
    board comes back with everything but the invalid creation dates,
    which become the epoch. *)
Theorem save_then_load_any_board (dateFallback : Value -> Outcome Date)
    (b : Board) :
  datesInRange b ->
  load dateFallback (Some (save b)) = Returns (Some (boardValue (reloaded b)))
  /\ asBoard (boardValue (reloaded b)) = Some (reloaded b).
Proof.
  intros Hb. split; [now apply load_save|apply asBoard_boardValue].
Qed.

Lemma datesInRange_undatedBoard : datesInRange undatedBoard.
Proof. intros l c t [<-|[]] [<-|[]] Ht. discriminate. Defined.

Lemma save_then_load_any_board_witness :
  datesInRange undatedBoard /\
  load strictDate (Some (save undatedBoard))
  = Returns (Some (boardValue (reloaded undatedBoard))).
Proof.
  split; [exact datesInRange_undatedBoard|].
  exact (proj1 (save_then_load_any_board strictDate undatedBoard
                  datesInRange_undatedBoard)).
Defined.

(** X20. After one save and load, further cycles change nothing: the board
    that was loaded is saved and loaded back exactly. *)
Theorem second_cycle_is_exact (dateFallback : Value -> Outcome Date)
    (b : Board) :
  datesInRange b ->
  load dateFallback (Some (save (reloaded b)))
  = Returns (Some (boardValue (reloaded b))).
Proof.
  intros Hb. pose proof (reloaded_datesValid b Hb) as Hv.
  rewrite load_save by now apply datesValid_inRange.
  now rewrite (reloaded_valid _ Hv).
Qed.

Lemma second_cycle_is_exact_witness :
  datesInRange undatedBoard /\
  load strictDate (Some (save (reloaded undatedBoard)))
  = Returns (Some (boardValue (reloaded undatedBoard))).
Proof.
  split; [exact datesInRange_undatedBoard|].
  exact (second_cycle_is_exact strictDate undatedBoard
           datesInRange_undatedBoard).
Defined.

(** X21. The saved text determines the board: two boards with valid creation
    dates that are saved as the same text are the same board. *)
Theorem save_injective (b1 b2 : Board) :
  datesValid b1 -> datesValid b2 -> save b1 = save b2 -> b1 = b2.
Proof.
  intros H1 H2 E.
  pose proof (load_save strictDate b1 (datesValid_inRange b1 H1)) as L1.
  pose proof (load_save strictDate b2 (datesValid_inRange b2 H2)) as L2.
  rewrite (reloaded_valid _ H1) in L1. rewrite (reloaded_valid _ H2) in L2.
  rewrite E, L2 in L1.
  apply (f_equal (fun o => match o with
                           | Returns (Some v) => asBoard v
                           | _ => None
                           end)) in L1.
  cbv beta iota in L1. rewrite !asBoard_boardValue in L1. congruence.
Qed.

Lemma save_injective_witness :
  datesValid tidyBoard /\ save tidyBoard = save tidyBoard /\
  tidyBoard = tidyBoard.
Proof.
  split; [exact datesValid_tidyBoard|]. split; [reflexivity|].
  exact (save_injective tidyBoard tidyBoard datesValid_tidyBoard
           datesValid_tidyBoard eq_refl).
Defined.

(** X22. The load checks nothing but the array under [lists]: a stored object
    whose [lists] is an empty array is handed to [setBoard] as it is,
    whatever else it holds or lacks (an identifier, a title). *)
Theorem load_accepts_any_object_with_empty_lists
    (dateFallback : Value -> Outcome Date) (text : jsstring)
    (props own : list (jsstring * Value)) :
  text <> [] ->
  Json.parse text = Some (VObject props) ->
  Json.getProp props (js "lists") = Some (VArray [] own) ->
  load dateFallback (Some text) = Returns (Some (VObject props)).
Proof.
  intros Hne Hp Hl. unfold load. destruct text as [|c r]; [contradiction|].
  cbn [JsString.truthy negb]. rewrite Hp.
  cbn [getMember bind]. rewrite Hl. cbn [arrayForEach forEach bind].
  now rewrite setProp_same.
Qed.

Lemma load_accepts_any_object_with_empty_lists_witness :
  onlyListsText <> [] /\
  Json.parse onlyListsText = Some (VObject [(js "lists", VArray [] [])]) /\
  load strictDate (Some onlyListsText)
  = Returns (Some (VObject [(js "lists", VArray [] [])])).
Proof.
  assert (H1 : onlyListsText <> []) by discriminate.
  assert (H2 : Json.parse onlyListsText
               = Some (VObject [(js "lists", VArray [] [])])) by reflexivity.
  repeat (split; [assumption|]).
  exact (load_accepts_any_object_with_empty_lists strictDate onlyListsText
           _ [] H1 H2 eq_refl).
Defined.

(** X23. A stored card without [createdAt] is not rejected: the load gives it
    an invalid date, as a new last property. *)
Theorem reviveCard_without_createdAt (dateFallback : Value -> Outcome Date)
    (props : list (jsstring * Value)) :
  Json.getProp props (js "createdAt") = None ->
  reviveCard dateFallback (VObject props)
  = Returns (VObject (props ++ [(js "createdAt", VDate None)])).
Proof.
  intros H. unfold reviveCard. cbn [getMember bind]. rewrite H.
  cbn [newDate bind setMember]. now rewrite setProp_absent.
Qed.

Lemma reviveCard_without_createdAt_witness :
  Json.getProp [(js "id", VString (js "7"))] (js "createdAt") = None /\
  reviveCard strictDate (VObject [(js "id", VString (js "7"))])
  = Returns (VObject [(js "id", VString (js "7"));
                      (js "createdAt", VDate None)]).
Proof.
  split; [reflexivity|].
  exact (reviveCard_without_createdAt strictDate
           [(js "id", VString (js "7"))] eq_refl).
Defined.
